(** * Registration screen: validation schema and submission

    A shallow embedding of [src/screens/RegistrationScreen.tsx]: the yup
    schema [registrationSchema], the submit handler [handleSubmit], the
    way the Formik form drives them, the loading of the programme list
    and the three pickers.

    Form values are JavaScript strings, kept as sequences of UTF-16 code
    units because the email pattern and [encodeURIComponent] both work on
    code units.  Texts that are only displayed (validation messages, alert
    titles and bodies) are kept as UTF-8 literals. *)

From stdpp Require Import gmap strings list fin_maps.
From Stdlib Require Import NArith ZArith Ascii String Lia.
From Stdlib Require Import DecimalString DecimalZ.

Local Open Scope string_scope.
Local Open Scope list_scope.
Local Open Scope N_scope.

(** ** JavaScript strings *)

Abbreviation jsstring := (list N).

(** A code unit is a 16-bit number. *)
Definition code_unit (c : N) : Prop := c < 65536.

Definition cu (a : ascii) : N := N_of_ascii a.

(** An ASCII literal as a JavaScript string. *)
Definition js (s : string) : jsstring := map cu (list_ascii_of_string s).

(** A character class: a list of inclusive ranges of code units. *)
Definition in_class (ranges : list (N * N)) (c : N) : bool :=
  existsb (fun r => (fst r <=? c) && (c <=? snd r)) ranges.

Definition rng (a b : ascii) : N * N := (cu a, cu b).
Definition one (a : ascii) : N * N := (cu a, cu a).

(** ** Regular expressions

    The two patterns of the schema use classes, concatenation, [+], [?],
    [*] and bounded repetition only, and both are anchored with [^] and
    [$] (no [m] flag), so [value.search(re) !== -1] is a match of the
    whole string. *)
Module Regex.

Inductive regex : Type :=
| Void
| Eps
| Class (ranges : list (N * N))
| Seq (r1 r2 : regex)
| Alt (r1 r2 : regex)
| Star (r : regex).

Definition Chr (a : ascii) : regex := Class [one a].
Definition Plus (r : regex) : regex := Seq r (Star r).
Definition Opt (r : regex) : regex := Alt Eps r.

(** [r{0,n}] *)
Fixpoint Upto (n : nat) (r : regex) : regex :=
  match n with
  | O => Eps
  | S n' => Opt (Seq r (Upto n' r))
  end.

(** A literal such as [@edu\.hse\.ru]. *)
Definition Lit (s : string) : regex :=
  fold_right (fun a r => Seq (Chr a) r) Eps (list_ascii_of_string s).

Fixpoint nullable (r : regex) : bool :=
  match r with
  | Void => false
  | Eps => true
  | Class _ => false
  | Seq r1 r2 => nullable r1 && nullable r2
  | Alt r1 r2 => nullable r1 || nullable r2
  | Star _ => true
  end.

Fixpoint deriv (c : N) (r : regex) : regex :=
  match r with
  | Void => Void
  | Eps => Void
  | Class ranges => if in_class ranges c then Eps else Void
  | Seq r1 r2 =>
      if nullable r1
      then Alt (Seq (deriv c r1) r2) (deriv c r2)
      else Seq (deriv c r1) r2
  | Alt r1 r2 => Alt (deriv c r1) (deriv c r2)
  | Star r1 => Seq (deriv c r1) (Star r1)
  end.

(** [test r s]: the anchored pattern [r] matches the string [s]. *)
Fixpoint test (r : regex) (s : jsstring) : bool :=
  match s with
  | [] => nullable r
  | c :: s' => test (deriv c r) s'
  end.

(** The language of a pattern, as a relation. *)
Inductive lang : regex -> jsstring -> Prop :=
| lang_eps : lang Eps []
| lang_class ranges c : in_class ranges c = true -> lang (Class ranges) [c]
| lang_seq r1 r2 s1 s2 :
    lang r1 s1 -> lang r2 s2 -> lang (Seq r1 r2) (s1 ++ s2)
| lang_alt_l r1 r2 s : lang r1 s -> lang (Alt r1 r2) s
| lang_alt_r r1 r2 s : lang r2 s -> lang (Alt r1 r2) s
| lang_star_nil r : lang (Star r) []
| lang_star_app r s1 s2 :
    lang r s1 -> lang (Star r) s2 -> lang (Star r) (s1 ++ s2).

End Regex.

(** ** [encodeURIComponent]

    ECMAScript's [Encode] with the unreserved set of [encodeURIComponent]:
    an unreserved code unit is copied, any other code point is written as
    the [%XX] escapes of its UTF-8 octets, and an unpaired surrogate raises
    [URIError] ([None]). *)
Module URI.

Definition unreserved (c : N) : bool :=
  in_class [rng "A" "Z"; rng "a" "z"; rng "0" "9"; one "-"; one "_";
            one "."; one "!"; one "~"; one "*"; one "'"; one "("; one ")"] c.

Definition hex_digit (n : N) : N :=
  if n <? 10 then cu "0" + n else cu "A" + (n - 10).

Definition percent (octet : N) : jsstring :=
  [cu "%"; hex_digit (octet / 16); hex_digit (octet mod 16)].

Definition utf8 (cp : N) : list N :=
  if cp <? 0x80 then [cp]
  else if cp <? 0x800 then [0xC0 + cp / 64; 0x80 + cp mod 64]
  else if cp <? 0x10000 then
    [0xE0 + cp / 4096; 0x80 + (cp / 64) mod 64; 0x80 + cp mod 64]
  else
    [0xF0 + cp / 262144; 0x80 + (cp / 4096) mod 64;
     0x80 + (cp / 64) mod 64; 0x80 + cp mod 64].

Definition escape (cp : N) : jsstring := List.concat (map percent (utf8 cp)).

Definition is_lead (c : N) : bool := (0xD800 <=? c) && (c <=? 0xDBFF).
Definition is_trail (c : N) : bool := (0xDC00 <=? c) && (c <=? 0xDFFF).

Definition pair_code_point (lead trail : N) : N :=
  0x10000 + (lead - 0xD800) * 0x400 + (trail - 0xDC00).

Fixpoint encodeURIComponent (s : jsstring) : option jsstring :=
  match s with
  | [] => Some []
  | c :: rest =>
      if unreserved c then
        option_map (cons c) (encodeURIComponent rest)
      else if is_trail c then None
      else if is_lead c then
        match rest with
        | d :: rest' =>
            if is_trail d
            then option_map (app (escape (pair_code_point c d)))
                            (encodeURIComponent rest')
            else None
        | [] => None
        end
      else option_map (app (escape c)) (encodeURIComponent rest)
  end.

(** What an encoded component looks like: unreserved characters and
    [%XX] escapes, nothing else. *)
Definition is_hex (c : N) : bool :=
  in_class [rng "0" "9"; rng "A" "F"] c.

Inductive escaped : jsstring -> Prop :=
| escaped_nil : escaped []
| escaped_plain c s : unreserved c = true -> escaped s -> escaped (c :: s)
| escaped_percent h l s :
    is_hex h = true -> is_hex l = true -> escaped s ->
    escaped (cu "%" :: h :: l :: s).

End URI.

(** ** The yup schema

    The schema combinators as yup 1.x runs them under Formik
    ([schema.validate(values, {abortEarly: false})]):
    - a schema made [required] rejects [undefined] at once with the
      message of [required], and then runs none of its tests;
    - otherwise every test of the chain is started, whatever the other
      tests answer; the built-in tests skip an absent value;
    - the failures of the tests that answer at once come first, in chain
      order, then those of the tests that had to wait for the network. *)
Module Yup.
Import Regex URI.

(** What [api.get] gives back: a response with [data.available], or a
    rejection (no connection, timeout, error status). *)
Inductive api_result : Type :=
| Resolved (available : bool)
| Rejected.

(** A test answers at once, or after one request. *)
Inductive outcome : Type :=
| Done (ok : bool)
| Await (url : jsstring) (k : api_result -> bool).

Record test : Type := Test {
  message : string;
  run : option jsstring -> outcome
}.

Record schema : Type := Schema {
  defined_message : option string;
  tests : list test
}.

Definition add_test (t : test) (s : schema) : schema :=
  {| defined_message := defined_message s; tests := tests s ++ [t] |}.

Definition skipAbsent (f : jsstring -> bool) (v : option jsstring) : outcome :=
  match v with
  | None => Done true
  | Some s => Done (f s)
  end.

Definition is_empty (s : jsstring) : bool :=
  match s with
  | [] => true
  | _ :: _ => false
  end.

Definition string_ : schema := {| defined_message := None; tests := [] |}.

Definition required (msg : string) (s : schema) : schema :=
  {| defined_message := Some msg;
     tests := tests s ++ [Test msg (skipAbsent (fun v => negb (is_empty v)))] |}.

Definition matches (re : regex) (msg : string) (s : schema) : schema :=
  add_test (Test msg (skipAbsent (Regex.test re))) s.

Definition alnum : list (N * N) := [rng "a" "z"; rng "A" "Z"; rng "0" "9"].

(** yup's pattern for [email()]:
    [/^[a-zA-Z0-9.!#$%&'*+\/=?^_`{|}~-]+@[a-zA-Z0-9](?:[a-zA-Z0-9-]{0,61}[a-zA-Z0-9])?(?:\.[a-zA-Z0-9](?:[a-zA-Z0-9-]{0,61}[a-zA-Z0-9])?)*$/] *)
Definition rEmail_label : regex :=
  Seq (Class alnum)
      (Opt (Seq (Upto 61 (Class (alnum ++ [one "-"]))) (Class alnum))).

Definition rEmail : regex :=
  Seq (Plus (Class (alnum ++
         [one "."; one "!"; one "#"; one "$"; one "%"; one "&"; one "'";
          one "*"; one "+"; one "/"; one "="; one "?"; one "^"; one "_";
          one "`"; one "{"; one "|"; one "}"; one "~"; one "-"])))
      (Seq (Chr "@")
           (Seq rEmail_label (Star (Seq (Chr ".") rEmail_label)))).

(** [email()] is [matches(rEmail, {excludeEmptyString: true})]. *)
Definition email (msg : string) (s : schema) : schema :=
  add_test (Test msg (skipAbsent (fun v => is_empty v || Regex.test rEmail v))) s.

(** [.test(name, message, fn)]: a test of the caller's, given the value
    as it is. *)
Definition test_ (msg : string) (fn : option jsstring -> outcome)
    (s : schema) : schema :=
  add_test (Test msg fn) s.

Definition answers_at_once (o : outcome) : bool :=
  match o with
  | Done _ => true
  | Await _ _ => false
  end.

Definition settle (net : jsstring -> api_result) (o : outcome) : bool :=
  match o with
  | Done ok => ok
  | Await url k => k (net url)
  end.

(** The tests a validation of [v] starts. *)
Definition started (s : schema) (v : option jsstring) : list test :=
  match v, defined_message s with
  | None, Some _ => []
  | _, _ => tests s
  end.

(** The requests a validation of [v] sends. *)
Definition requests (s : schema) (v : option jsstring) : list jsstring :=
  flat_map (fun t => match run t v with
                     | Done _ => []
                     | Await url _ => [url]
                     end) (started s v).

Definition failed (net : jsstring -> api_result) (v : option jsstring)
    (t : test) : bool :=
  negb (settle net (run t v)).

(** The messages of a validation of [v], once [net] has answered. *)
Definition validate (s : schema) (net : jsstring -> api_result)
    (v : option jsstring) : list string :=
  match v, defined_message s with
  | None, Some msg => [msg]
  | _, _ =>
      map message
        (List.filter (fun t => answers_at_once (run t v) && failed net v t) (tests s)
         ++ List.filter (fun t => negb (answers_at_once (run t v)) && failed net v t)
              (tests s))
  end.

End Yup.

(** ** The registration form *)

Inductive field : Type :=
| Surname | Name | Patronymic | Email | ProgramId | YearAdmission | Group.

#[global] Instance field_eq_dec : EqDecision field.
Proof. solve_decision. Defined.

Definition field_name (f : field) : string :=
  match f with
  | Surname => "surname"
  | Name => "name"
  | Patronymic => "patronymic"
  | Email => "email"
  | ProgramId => "programId"
  | YearAdmission => "yearAdmission"
  | Group => "group"
  end.

Record FormValues : Type := {
  surname : jsstring;
  name : jsstring;
  patronymic : jsstring;
  email : jsstring;
  programId : jsstring;
  yearAdmission : jsstring;
  group : jsstring
}.

Definition initialValues : FormValues :=
  {| surname := []; name := []; patronymic := []; email := [];
     programId := []; yearAdmission := []; group := [] |}.

(** A filled-in form, for the examples. *)
Definition ivanov : FormValues :=
  {| surname := js "Ivanov"; name := js "Ivan"; patronymic := [];
     email := js "ivanov@edu.hse.ru"; programId := js "1";
     yearAdmission := js "2024"; group := js "2" |}.

Definition getIn (v : FormValues) (f : field) : jsstring :=
  match f with
  | Surname => surname v
  | Name => name v
  | Patronymic => patronymic v
  | Email => email v
  | ProgramId => programId v
  | YearAdmission => yearAdmission v
  | Group => group v
  end.

Definition setIn (v : FormValues) (f : field) (x : jsstring) : FormValues :=
  {| surname := if f is Surname then x else surname v;
     name := if f is Name then x else name v;
     patronymic := if f is Patronymic then x else patronymic v;
     email := if f is Email then x else email v;
     programId := if f is ProgramId then x else programId v;
     yearAdmission := if f is YearAdmission then x else yearAdmission v;
     group := if f is Group then x else group v |}.

Module Schema.
Import Regex URI Yup.

(** [${value}] and [encodeURIComponent(value)] turn [undefined] into the
    text [undefined]. *)
Definition ToString (v : option jsstring) : jsstring :=
  match v with
  | Some s => s
  | None => js "undefined"
  end.

(** [/^[A-Za-z0-9._%+-]+@edu\.hse\.ru$/] *)
Definition corporate_local : list (N * N) :=
  [rng "A" "Z"; rng "a" "z"; rng "0" "9";
   one "."; one "_"; one "%"; one "+"; one "-"].

Definition corporate : regex :=
  Seq (Plus (Class corporate_local)) (Lit "@edu.hse.ru").

Definition check_email_url (component : jsstring) : jsstring :=
  js "/api/check-email?email=" ++ component.

(** The [email-available] test: the whole body is inside [try], so a
    [URIError] of [encodeURIComponent] and a rejected request both end in
    [catch { return false }]. *)
Definition email_available (value : option jsstring) : outcome :=
  match encodeURIComponent (ToString value) with
  | None => Done false
  | Some component =>
      Await (check_email_url component)
            (fun response =>
               match response with
               | Resolved available => available
               | Rejected => false
               end)
  end.

Definition email_schema : schema :=
  test_ "Email уже зарегистрирован" email_available
    (matches corporate "Только корпоративные email @edu.hse.ru"
       (email "Некорректный формат email"
          (required "Email обязателен" string_))).

(** [yup.object().shape({...})], in the order of the source; [patronymic]
    has no entry. *)
Definition registrationSchema : list (field * schema) :=
  [(Surname, required "Фамилия обязательна" string_);
   (Name, required "Имя обязательно" string_);
   (Email, email_schema);
   (ProgramId, required "Выберите направление" string_);
   (YearAdmission, required "Укажите год поступления" string_);
   (Group, required "Укажите группу" string_)].

End Schema.

(** ** Formik

    What Formik does with the schema: before validating it replaces an
    empty string by [undefined]; it keeps the first message of each field;
    the form is valid when the error object has no key. *)
Module Formik.
Import Yup.

Definition prepareDataForValidation (x : jsstring) : option jsstring :=
  match x with
  | [] => None
  | _ :: _ => Some x
  end.

(** [ValidationError.inner]: (path, message) pairs, fields in schema
    order. *)
Definition inner_errors (shape : list (field * schema))
    (net : jsstring -> api_result) (values : FormValues)
    : list (string * string) :=
  flat_map (fun fs =>
              map (fun msg => (field_name (fst fs), msg))
                  (validate (snd fs) net
                     (prepareDataForValidation (getIn values (fst fs)))))
           shape.

Definition truthy (m : option string) : bool :=
  match m with
  | Some s => negb (String.eqb s EmptyString)
  | None => false
  end.

(** The body of the loop of [yupToFormErrors]:
    [if (!getIn(errors, err.path)) errors = setIn(errors, err.path, err.message)]. *)
Definition keep_first (errors : gmap string string) (err : string * string)
    : gmap string string :=
  if truthy (errors !! fst err) then errors
  else <[fst err := snd err]> errors.

Definition yupToFormErrors (inner : list (string * string))
    : gmap string string :=
  fold_left keep_first inner ∅.

(** The requests one validation run sends. *)
Definition validation_requests (shape : list (field * schema))
    (values : FormValues) : list jsstring :=
  flat_map (fun fs =>
              requests (snd fs)
                (prepareDataForValidation (getIn values (fst fs))))
           shape.

(** The error object a validation run stores when it settles. *)
Definition runValidationSchema (shape : list (field * schema))
    (net : jsstring -> api_result) (values : FormValues)
    : gmap string string :=
  yupToFormErrors (inner_errors shape net values).

Definition isValid (errors : gmap string string) : bool :=
  bool_decide (errors = ∅).

End Formik.

(** ** The screen

    The component state and the events that change it.  A validation run
    is started by Formik 2 on every change, on every blur and on every
    submit attempt; it sends its requests at once and stores its errors
    when it settles, whatever has happened in between.  A submit attempt
    whose run finds no error calls [handleSubmit] with the values of that
    moment.  The loading of the programme list and the [touched] flags,
    which only decide what is displayed, are left out. *)
Module Screen.
Import Yup Schema Formik.

Inductive request : Type :=
| GET (url : jsstring)
| POST (url : jsstring) (body : FormValues).

(** How [api.post] ends: it resolves, or it rejects with an error whose
    [response?.data?.message] is [message]. *)
Inductive post_result : Type :=
| Created
| Failed (message : option string).

Record validation : Type := {
  run_id : nat;
  run_values : FormValues;
  run_submit : bool
}.

Record screen : Type := {
  values : FormValues;
  errors : gmap string string;
  loading : bool;
  validating : list validation;
  registering : list nat;
  sent : list request;
  alerts : list (string * string);
  fresh : nat
}.

Definition initial : screen :=
  {| values := initialValues; errors := ∅; loading := false;
     validating := []; registering := []; sent := []; alerts := [];
     fresh := O |}.

Inductive event : Type :=
| Change (f : field) (text : jsstring)
| Blur (f : field)
| Press
| ValidationSettled (id : nat) (answer : api_result)
| RegisterSettled (id : nat) (result : post_result).

Definition setValues (v : FormValues) (s : screen) : screen :=
  {| values := v; errors := errors s; loading := loading s;
     validating := validating s; registering := registering s;
     sent := sent s; alerts := alerts s; fresh := fresh s |}.

Definition setLoading (b : bool) (s : screen) : screen :=
  {| values := values s; errors := errors s; loading := b;
     validating := validating s; registering := registering s;
     sent := sent s; alerts := alerts s; fresh := fresh s |}.

(** [validateFormWithHighPriority(vals)], up to the first [await]. *)
Definition validateForm (submit : bool) (vals : FormValues) (s : screen)
    : screen :=
  {| values := values s; errors := errors s; loading := loading s;
     validating :=
       {| run_id := fresh s; run_values := vals; run_submit := submit |}
       :: validating s;
     registering := registering s;
     sent := sent s ++ map GET (validation_requests registrationSchema vals);
     alerts := alerts s; fresh := S (fresh s) |}.

(** [handleSubmit(values)], up to [await api.post(...)]. *)
Definition handleSubmit (vals : FormValues) (s : screen) : screen :=
  let s := setLoading true s in
  {| values := values s; errors := errors s; loading := loading s;
     validating := validating s;
     registering := fresh s :: registering s;
     sent := sent s ++ [POST (js "/api/register") vals];
     alerts := alerts s; fresh := S (fresh s) |}.

Definition alert_of (result : post_result) : string * string :=
  match result with
  | Created =>
      ("Успешно!", "Регистрация завершена. Пароль отправлен на вашу почту.")
  | Failed message =>
      ("Ошибка",
       match message with
       | Some m => if truthy message then m else "Ошибка сервера"
       | None => "Ошибка сервера"
       end)
  end.

(** [handleSubmit] from the [await] on: the alert of [try] or of
    [catch], then [finally]. *)
Definition handleSubmit_settled (result : post_result) (s : screen)
    : screen :=
  setLoading false
    {| values := values s; errors := errors s; loading := loading s;
       validating := validating s; registering := registering s;
       sent := sent s; alerts := alerts s ++ [alert_of result];
       fresh := fresh s |}.

Fixpoint take_run (id : nat) (l : list validation)
    : option (validation * list validation) :=
  match l with
  | [] => None
  | r :: l' =>
      if Nat.eqb (run_id r) id then Some (r, l')
      else match take_run id l' with
           | Some (r', rest) => Some (r', r :: rest)
           | None => None
           end
  end.

Fixpoint take_id (id : nat) (l : list nat) : option (list nat) :=
  match l with
  | [] => None
  | i :: l' =>
      if Nat.eqb i id then Some l'
      else option_map (cons i) (take_id id l')
  end.

(** A validation run settles: [SET_ERRORS], and for a submit attempt
    [onSubmit] when the error object is empty. *)
Definition validation_settled (r : validation) (rest : list validation)
    (answer : api_result) (s : screen) : screen :=
  let errs := runValidationSchema registrationSchema (fun _ => answer)
                (run_values r) in
  let s' := {| values := values s; errors := errs; loading := loading s;
               validating := rest; registering := registering s;
               sent := sent s; alerts := alerts s; fresh := fresh s |} in
  if run_submit r && isValid errs then handleSubmit (values s') s' else s'.

Definition step (s : screen) (e : event) : screen :=
  match e with
  | Change f text =>
      let vals := setIn (values s) f text in
      validateForm false vals (setValues vals s)
  | Blur _ => validateForm false (values s) s
  | Press =>
      (* <TouchableOpacity onPress={() => handleSubmit()} disabled={loading}> *)
      if loading s then s else validateForm true (values s) s
  | ValidationSettled id answer =>
      match take_run id (validating s) with
      | Some (r, rest) => validation_settled r rest answer s
      | None => s
      end
  | RegisterSettled id result =>
      match take_id id (registering s) with
      | Some rest =>
          handleSubmit_settled result
            {| values := values s; errors := errors s; loading := loading s;
               validating := validating s; registering := rest;
               sent := sent s; alerts := alerts s; fresh := fresh s |}
      | None => s
      end
  end.

Definition steps (s : screen) (es : list event) : screen :=
  fold_left step es s.

Definition is_register (q : request) : bool :=
  match q with
  | POST _ _ => true
  | GET _ => false
  end.

(** The registration requests sent so far. *)
Definition registrations (s : screen) : list request :=
  List.filter is_register (sent s).

End Screen.

(** ** The vocabulary of the specification

    The error object that one validation run produces, read as a
    validation snapshot: a field with a message is [Invalid], a field
    without one is [Valid]; the form can be submitted when the error
    object is empty, which is what Formik asks before it calls
    [onSubmit].  The error object has no way to say [Unvalidated] or
    [Pending]. *)
Module Spec.
Import Formik.

Inductive FieldValidity : Type :=
| Unvalidated
| Valid
| Invalid (reason : string)
| Pending.

Definition validity (errors : gmap string string) (f : field)
    : FieldValidity :=
  match errors !! field_name f with
  | Some reason => Invalid reason
  | None => Valid
  end.

Definition isSubmittable (errors : gmap string string) : bool :=
  isValid errors.

Definition required_field (f : field) : bool :=
  match f with
  | Patronymic => false
  | _ => true
  end.

Definition local_char (c : N) : Prop :=
  (cu "A" <= c <= cu "Z") \/ (cu "a" <= c <= cu "z") \/
  (cu "0" <= c <= cu "9") \/
  c = cu "." \/ c = cu "_" \/ c = cu "%" \/ c = cu "+" \/ c = cu "-".

(** A non-empty local part of letters, digits and [._%+-], then [@] and
    the domain [edu.hse.ru]. *)
Definition corporate_address (s : jsstring) : Prop :=
  exists local_part,
    local_part <> [] /\ Forall local_char local_part /\
    s = local_part ++ js "@edu.hse.ru".

End Spec.

(** ** The pickers and the programme list

    The screen loads the programmes once, when it is mounted, and offers
    three pickers: programme, year of admission and group.  Each picker
    starts with a placeholder item whose value is the empty string, and
    after it has one item per element, whose value is [toString()] of the
    element; [onValueChange] passes the chosen value to [handleChange]. *)
Module Pickers.

(** The integers a JavaScript number holds exactly. *)
Definition safe_integer (n : Z) : Prop := (Z.abs n < 2 ^ 53)%Z.

(** [Number.prototype.toString] on a safe integer: its decimal digits,
    after a minus sign when it is negative.  Beyond the safe integers
    JavaScript prints the digits of the nearest double, and exponent
    notation from [10^21] on; the elements of the pickers (years, the
    groups 1 to 5, programme ids) are safe integers, and nothing below
    is read off this definition outside them except that the text is
    never empty. *)
Definition toString (n : Z) : jsstring :=
  js (NilZero.string_of_int (Z.to_int n)).

(** [Array.from({ length: 11 }, (_, i) => currentYear - i)] *)
Definition years (currentYear : Z) : list Z :=
  map (fun i => (currentYear - Z.of_nat i)%Z) (seq 0 11).

Definition groups : list Z := [1; 2; 3; 4; 5]%Z.

(** [type Program = { id: number; name: string }], with integer ids. *)
Record Program : Type := {
  id : Z;
  name : jsstring
}.

(** The values of the items of a picker. *)
Definition item_values (elements : list Z) : list jsstring :=
  [] :: map toString elements.

(** How [api.get('/api/programs')] ends. *)
Inductive programs_result : Type :=
| Loaded (data : list Program)
| LoadFailed.

Record programs_state : Type := {
  programs : list Program;
  load_alerts : list (string * string)
}.

(** [useState<Program[]>([])] *)
Definition not_loaded : programs_state :=
  {| programs := []; load_alerts := [] |}.

(** [loadPrograms], from its [await] on. *)
Definition loadPrograms (r : programs_result) (st : programs_state)
    : programs_state :=
  match r with
  | Loaded data => {| programs := data; load_alerts := load_alerts st |}
  | LoadFailed =>
      {| programs := programs st;
         load_alerts := load_alerts st ++
                        [("Ошибка", "Не удалось загрузить направления")] |}
  end.

Definition program_values (st : programs_state) : list jsstring :=
  item_values (map id (programs st)).

End Pickers.

(** ** Counting over a run of the screen *)
Module Traces.
Import Screen.

Definition is_press (e : event) : bool :=
  match e with
  | Press => true
  | _ => false
  end.

(** The presses of the submit button among the events. *)
Definition presses (es : list event) : nat :=
  List.length (List.filter is_press es).

(** The submit attempts whose validation has not settled yet. *)
Definition attempts (s : screen) : nat :=
  List.length (List.filter run_submit (validating s)).

End Traces.

(** The first octet of a UTF-8 sequence tells its length. *)
Definition utf8_length (first : N) : nat :=
  if first <? 0x80 then 1 else if first <? 0xE0 then 2
  else if first <? 0xF0 then 3 else 4.

(** * Proofs *)

(** ** Patterns: the matcher decides the language *)
Section RegexFacts.
Import Regex.

Lemma lang_void_inv s : ~ lang Void s.
Proof. intros H; inversion H. Qed.

Lemma lang_eps_inv s : lang Eps s -> s = [].
Proof. intros H; inversion H; reflexivity. Qed.

Lemma lang_class_inv ranges s :
  lang (Class ranges) s -> exists c, s = [c] /\ in_class ranges c = true.
Proof. intros H; inversion H; subst; eauto. Qed.

Lemma lang_seq_inv r1 r2 s :
  lang (Seq r1 r2) s ->
  exists s1 s2, s = s1 ++ s2 /\ lang r1 s1 /\ lang r2 s2.
Proof. intros H; inversion H; subst; eauto. Qed.

Lemma lang_alt_inv r1 r2 s : lang (Alt r1 r2) s -> lang r1 s \/ lang r2 s.
Proof. intros H; inversion H; subst; auto. Qed.

Lemma lang_star_cons_inv r c s :
  lang (Star r) (c :: s) ->
  exists s1 s2, s = s1 ++ s2 /\ lang r (c :: s1) /\ lang (Star r) s2.
Proof.
  intros H.
  remember (Star r) as r' eqn:Er. remember (c :: s) as w eqn:Ew.
  revert s Ew.
  induction H as [| | | | | |r0 s1 s2 H1 _ H2 IH2]; intros w' Ew;
    try discriminate.
  injection Er as ->.
  destruct s1 as [|c1 s1]; simpl in Ew.
  - apply IH2; auto.
  - injection Ew as -> <-. eauto.
Qed.

Lemma nullable_lang r : nullable r = true <-> lang r [].
Proof.
  induction r as [| |ranges|r1 IH1 r2 IH2|r1 IH1 r2 IH2|r IH]; simpl.
  - split; [discriminate | intros H; inversion H].
  - split; [constructor | reflexivity].
  - split; [discriminate | intros H; inversion H].
  - rewrite andb_true_iff, IH1, IH2. split.
    + intros [H1 H2]. apply (lang_seq _ _ [] []); assumption.
    + intros H. apply lang_seq_inv in H as (s1 & s2 & E & H1 & H2).
      symmetry in E. apply app_nil in E as [-> ->]. auto.
  - rewrite orb_true_iff, IH1, IH2. split.
    + intros [H | H]; [apply lang_alt_l | apply lang_alt_r]; assumption.
    + apply lang_alt_inv.
  - split; [constructor | reflexivity].
Qed.

Lemma deriv_lang r : forall c s, lang (deriv c r) s <-> lang r (c :: s).
Proof.
  induction r as [| |ranges|r1 IH1 r2 IH2|r1 IH1 r2 IH2|r IH]; intros c s; simpl.
  - split; intros H; inversion H.
  - split; intros H; inversion H.
  - destruct (in_class ranges c) eqn:Ec; split; intros H.
    + apply lang_eps_inv in H as ->. constructor; assumption.
    + apply lang_class_inv in H as (c' & E & Hc).
      injection E as -> ->. constructor.
    + inversion H.
    + apply lang_class_inv in H as (c' & E & Hc). congruence.
  - assert (Hseq : lang (Seq (deriv c r1) r2) s ->
                   lang (Seq r1 r2) (c :: s)).
    { intros H. apply lang_seq_inv in H as (s1 & s2 & -> & H1 & H2).
      apply IH1 in H1. apply (lang_seq _ _ (c :: s1) s2); assumption. }
    destruct (nullable r1) eqn:En; split; intros H.
    + apply lang_alt_inv in H as [H | H]; [auto |].
      apply IH2 in H. apply nullable_lang in En.
      apply (lang_seq _ _ [] (c :: s)); assumption.
    + apply lang_seq_inv in H as (s1 & s2 & E & H1 & H2).
      destruct s1 as [|c1 s1]; simpl in E.
      * subst s2. apply lang_alt_r, IH2, H2.
      * injection E as <- ->. apply lang_alt_l.
        apply lang_seq; [apply IH1 |]; assumption.
    + auto.
    + apply lang_seq_inv in H as (s1 & s2 & E & H1 & H2).
      destruct s1 as [|c1 s1]; simpl in E.
      * apply nullable_lang in H1. congruence.
      * injection E as <- ->. apply lang_seq; [apply IH1 |]; assumption.
  - split; intros H.
    + apply lang_alt_inv in H as [H | H];
        [apply lang_alt_l, IH1 | apply lang_alt_r, IH2]; assumption.
    + apply lang_alt_inv in H as [H | H];
        [apply lang_alt_l, IH1 | apply lang_alt_r, IH2]; assumption.
  - split; intros H.
    + apply lang_seq_inv in H as (s1 & s2 & -> & H1 & H2).
      apply IH in H1. apply (lang_star_app _ (c :: s1) s2); assumption.
    + apply lang_star_cons_inv in H as (s1 & s2 & -> & H1 & H2).
      apply lang_seq; [apply IH |]; assumption.
Qed.

Lemma test_lang s : forall r, test r s = true <-> lang r s.
Proof.
  induction s as [|c s IH]; intros r; simpl.
  - apply nullable_lang.
  - rewrite IH. apply deriv_lang.
Qed.

(** One or more code units of a class. *)
Lemma lang_plus_class ranges s :
  lang (Plus (Class ranges)) s <->
  s <> [] /\ Forall (fun c => in_class ranges c = true) s.
Proof.
  unfold Plus. split.
  - intros H. apply lang_seq_inv in H as (s1 & s2 & -> & H1 & H2).
    apply lang_class_inv in H1 as (c & -> & Hc). simpl.
    split; [discriminate |]. constructor; [assumption |].
    clear c Hc. remember (Star (Class ranges)) as r eqn:Er.
    induction H2 as [| | | | | |r0 s1 s2 H1 _ H2 IH2]; try discriminate.
    + constructor.
    + injection Er as ->.
      apply lang_class_inv in H1 as (c & -> & Hc). simpl.
      constructor; auto.
  - intros [Hne Hall]. destruct s as [|c s]; [congruence |].
    apply Forall_cons_1 in Hall as [Hc Hall].
    apply (lang_seq _ _ [c] s); [constructor; assumption |].
    clear c Hc Hne. induction Hall as [|c s Hc _ IH].
    + constructor.
    + apply (lang_star_app _ [c] s); [constructor; assumption | assumption].
Qed.

Lemma in_class_one a c : in_class [one a] c = true <-> c = cu a.
Proof.
  unfold in_class, one; simpl.
  rewrite orb_false_r, andb_true_iff, !N.leb_le. lia.
Qed.

(** A literal matches itself only. *)
Lemma lang_lit str s : lang (Lit str) s <-> s = js str.
Proof.
  unfold Lit, js. revert s.
  induction (list_ascii_of_string str) as [|a l IH]; intros s; simpl.
  - split; [apply lang_eps_inv | intros ->; constructor].
  - split.
    + intros H. apply lang_seq_inv in H as (s1 & s2 & -> & H1 & H2).
      apply lang_class_inv in H1 as (c & -> & Hc).
      apply in_class_one in Hc as ->. apply IH in H2 as ->. reflexivity.
    + intros ->. apply (lang_seq _ _ [cu a] (map cu l)).
      * constructor. apply in_class_one. reflexivity.
      * apply IH. reflexivity.
Qed.

End RegexFacts.

(** ** Character classes *)

(** Turns membership in a concrete class into linear arithmetic. *)
Ltac class_arith :=
  unfold in_class, rng, one in *; cbn [existsb fst snd] in *;
  repeat match goal with
         | |- context [cu ?a] =>
             let v := eval vm_compute in (cu a) in change (cu a) with v
         | H : context [cu ?a] |- _ =>
             let v := eval vm_compute in (cu a) in change (cu a) with v in H
         end;
  rewrite ?orb_true_iff, ?andb_true_iff, ?orb_false_iff, ?andb_false_iff,
    ?N.leb_le, ?N.leb_gt, ?N.ltb_lt, ?N.ltb_ge in *.

Section SchemaFacts.
Import Regex URI Schema Spec.

Lemma corporate_local_char c :
  in_class corporate_local c = true <-> local_char c.
Proof.
  unfold corporate_local, local_char. class_arith. lia.
Qed.

(** The pattern of the source and the description of the specification
    accept the same strings. *)
Lemma corporate_spec s : test corporate s = true <-> corporate_address s.
Proof.
  rewrite test_lang. unfold corporate, corporate_address. split.
  - intros H. apply lang_seq_inv in H as (s1 & s2 & -> & H1 & H2).
    apply lang_plus_class in H1 as [Hne Hall]. apply lang_lit in H2 as ->.
    exists s1. split; [assumption |]. split; [| reflexivity].
    eapply Forall_impl; [exact Hall |]. intros c. apply corporate_local_char.
  - intros (local_part & Hne & Hall & ->).
    apply lang_seq; [| apply lang_lit; reflexivity].
    apply lang_plus_class. split; [assumption |].
    eapply Forall_impl; [exact Hall |]. intros c. apply corporate_local_char.
Qed.

(** Every corporate address has the format yup's [email()] asks for. *)
Lemma corporate_is_email s :
  corporate_address s -> test Yup.rEmail s = true.
Proof.
  intros (local_part & Hne & Hall & ->).
  apply test_lang. unfold Yup.rEmail.
  apply lang_seq.
  - apply lang_plus_class. split; [assumption |].
    eapply Forall_impl; [exact Hall |]. intros c Hc.
    unfold local_char in Hc. unfold Yup.alnum. cbn [app].
    class_arith. lia.
  - apply test_lang. vm_compute. reflexivity.
Qed.

End SchemaFacts.

(** ** [encodeURIComponent] *)
Section URIFacts.
Import URI.

Lemma hex_digit_is_hex n : n < 16 -> is_hex (hex_digit n) = true.
Proof.
  intros Hn. unfold is_hex, hex_digit.
  destruct (n <? 10) eqn:E; class_arith; lia.
Qed.

Lemma percent_escaped octet e :
  octet < 256 -> escaped e -> escaped (percent octet ++ e).
Proof.
  intros Ho He. unfold percent. simpl.
  apply escaped_percent; [apply hex_digit_is_hex .. | assumption].
  - apply N.Div0.div_lt_upper_bound. lia.
  - apply N.mod_lt. lia.
Qed.

Lemma utf8_octets cp : cp < 0x110000 -> Forall (fun o => o < 256) (utf8 cp).
Proof.
  intros Hcp. unfold utf8.
  assert (Hmod : forall x, 0x80 + x mod 64 < 256).
  { intros x. pose proof (N.mod_lt x 64). lia. }
  assert (Hdiv : forall k d, cp < d * (256 - k) -> k <= 256 -> k + cp / d < 256).
  { intros k d Hk Hle. apply N.Div0.div_lt_upper_bound in Hk. lia. }
  destruct (cp <? 0x80) eqn:E1; [| destruct (cp <? 0x800) eqn:E2;
    [| destruct (cp <? 0x10000) eqn:E3]];
    rewrite ?N.ltb_lt, ?N.ltb_ge in *;
    repeat first [apply Forall_nil_2
                 | apply Forall_cons_2;
                   [cbv beta; first [apply Hmod | apply Hdiv; lia | lia] |]].
Qed.

Lemma escape_escaped cp e :
  cp < 0x110000 -> escaped e -> escaped (escape cp ++ e).
Proof.
  intros Hcp He. unfold escape.
  induction (utf8_octets cp Hcp) as [|o l Ho _ IH]; cbn [map List.concat].
  - assumption.
  - rewrite <- app_assoc. apply percent_escaped; assumption.
Qed.

Lemma pair_code_point_bound c d :
  is_lead c = true -> is_trail d = true -> pair_code_point c d < 0x110000.
Proof.
  unfold is_lead, is_trail, pair_code_point.
  rewrite !andb_true_iff, !N.leb_le. lia.
Qed.

(** The result is made of unreserved characters and [%XX] escapes. *)
Lemma encodeURIComponent_escaped s :
  Forall code_unit s ->
  forall e, encodeURIComponent s = Some e -> escaped e.
Proof.
  remember (List.length s) as n eqn:En. revert s En.
  induction n as [n IH] using lt_wf_ind. intros s En Hs e.
  destruct s as [|c rest]; simpl.
  - intros [= <-]. constructor.
  - apply Forall_cons_1 in Hs as [Hc Hrest]. unfold code_unit in Hc.
    simpl in En.
    assert (Hrec : forall e', encodeURIComponent rest = Some e' -> escaped e').
    { apply (IH (List.length rest)); [lia | reflexivity | assumption]. }
    destruct (unreserved c) eqn:Eu.
    { destruct (encodeURIComponent rest) as [e'|]; [| discriminate].
      intros [= <-]. apply escaped_plain; auto. }
    destruct (is_trail c) eqn:Et; [discriminate |].
    destruct (is_lead c) eqn:El.
    + destruct rest as [|d rest']; [discriminate |].
      destruct (is_trail d) eqn:Etd; [| discriminate].
      apply Forall_cons_1 in Hrest as [_ Hrest']. simpl in En.
      destruct (encodeURIComponent rest') as [e'|] eqn:Ee; [| discriminate].
      intros [= <-]. apply escape_escaped.
      * apply pair_code_point_bound; assumption.
      * apply (IH (List.length rest')) with (s := rest');
          [lia | reflexivity | assumption | assumption].
    + destruct (encodeURIComponent rest) as [e'|]; [| discriminate].
      intros [= <-]. apply escape_escaped; [lia | auto].
Qed.

Lemma escaped_chars e :
  escaped e ->
  Forall (fun c => unreserved c = true \/ is_hex c = true \/ c = cu "%") e.
Proof.
  induction 1 as [|c s Hc _ IH|h l s Hh Hl _ IH].
  - apply Forall_nil_2.
  - apply Forall_cons_2; auto.
  - repeat apply Forall_cons_2; auto.
Qed.

(** A string without surrogates is always encoded. *)
Lemma encodeURIComponent_total s :
  Forall (fun c => c < 0xD800) s -> is_Some (encodeURIComponent s).
Proof.
  induction 1 as [|c rest Hc _ [e IH]]; simpl.
  - eauto.
  - rewrite IH.
    assert (is_trail c = false /\ is_lead c = false) as [-> ->].
    { unfold is_trail, is_lead.
      rewrite !andb_false_iff, !N.leb_gt. lia. }
    destruct (unreserved c); simpl; eauto.
Qed.

End URIFacts.

(** ** The error object *)
Section FormikFacts.
Import Formik.

Lemma keep_first_lookup_None errors err k :
  keep_first errors err !! k = None <-> errors !! k = None /\ k <> fst err.
Proof.
  unfold keep_first, truthy.
  destruct (decide (k = fst err)) as [->|Hne].
  - destruct (errors !! fst err) as [m|] eqn:E.
    + destruct (negb (String.eqb m EmptyString)); rewrite ?lookup_insert_eq, ?E;
        split; [discriminate | intros [[=] _] | discriminate | intros [[=] _]].
    + rewrite lookup_insert_eq. split; [discriminate | intros [_ []]; reflexivity].
  - destruct (errors !! fst err) as [m|] eqn:E.
    + destruct (negb (String.eqb m EmptyString)); rewrite ?lookup_insert_ne by congruence;
        tauto.
    + rewrite lookup_insert_ne by congruence. tauto.
Qed.

Lemma fold_keep_first_lookup_None inner : forall errors k,
  fold_left keep_first inner errors !! k = None <->
  errors !! k = None /\ ~ In k (map fst inner).
Proof.
  induction inner as [|err inner IH]; intros errors k; simpl.
  - tauto.
  - rewrite IH, keep_first_lookup_None. intuition congruence.
Qed.

(** A field has no message exactly when the validation reported none
    for it. *)
Lemma yupToFormErrors_lookup_None inner k :
  yupToFormErrors inner !! k = None <-> ~ In k (map fst inner).
Proof.
  unfold yupToFormErrors.
  rewrite fold_keep_first_lookup_None, lookup_empty. tauto.
Qed.

Lemma yupToFormErrors_empty inner :
  yupToFormErrors inner = ∅ <-> inner = [].
Proof.
  split; [| intros ->; reflexivity].
  intros H. destruct inner as [|err inner]; [reflexivity | exfalso].
  assert (Hk : yupToFormErrors (err :: inner) !! fst err = None)
    by (rewrite H; apply lookup_empty).
  apply yupToFormErrors_lookup_None in Hk. apply Hk. simpl. auto.
Qed.

Lemma isValid_inner inner :
  isValid (yupToFormErrors inner) = true <-> inner = [].
Proof.
  unfold isValid. rewrite bool_decide_eq_true. apply yupToFormErrors_empty.
Qed.

End FormikFacts.

(** ** What the schema reports *)
Section ValidationFacts.
Import Regex URI Yup Schema Formik Spec.

Lemma prepare_nonempty x : x <> [] -> prepareDataForValidation x = Some x.
Proof. destruct x; [congruence | reflexivity]. Qed.

Lemma validate_required msg net x :
  validate (required msg string_) net (prepareDataForValidation x) =
  if is_empty x then [msg] else [].
Proof. destruct x; reflexivity. Qed.

Lemma requests_required msg v : requests (required msg string_) v = [].
Proof. destruct v; reflexivity. Qed.

Lemma validate_email_schema net x :
  validate email_schema net (prepareDataForValidation x) = [] <->
  x <> [] /\ Regex.test rEmail x = true /\ Regex.test corporate x = true /\
  settle net (email_available (Some x)) = true.
Proof.
  destruct (is_empty x) eqn:Ex.
  - destruct x; [| discriminate]. simpl. split; [discriminate | tauto].
  - assert (Hne : x <> []) by (intros ->; discriminate).
    rewrite prepare_nonempty by assumption.
    unfold validate, email_schema, test_, matches, email, required, add_test,
      string_, failed.
    cbn [defined_message tests app List.filter map run message skipAbsent
         answers_at_once settle andb negb].
    rewrite Ex. cbn [negb orb andb List.filter app map message].
    destruct (Regex.test rEmail x), (Regex.test corporate x);
      cbn [negb orb andb List.filter app map message];
      destruct (email_available (Some x)) as [ok|url k];
      cbn [answers_at_once settle negb orb andb List.filter app map message];
      try destruct ok; try destruct (k (net url));
      cbn [answers_at_once settle negb orb andb List.filter app map message];
      split; try discriminate; try tauto;
      intros (_ & ? & ? & ?); discriminate.
Qed.

Lemma required_reports msg net x :
  validate (required msg string_) net (prepareDataForValidation x) = [] <->
  x <> [].
Proof.
  rewrite validate_required. destruct x; simpl; split; congruence.
Qed.

Lemma inner_errors_nil shape net values :
  inner_errors shape net values = [] <->
  Forall (fun fs => validate (snd fs) net
                      (prepareDataForValidation (getIn values (fst fs))) = [])
         shape.
Proof.
  unfold inner_errors.
  induction shape as [|fs shape IH]; simpl.
  - split; [intros _; apply Forall_nil_2 | reflexivity].
  - rewrite Forall_cons, <- IH, app_nil.
    split; intros [H1 H2]; split; try assumption.
    + destruct (validate _ _ _); [reflexivity | discriminate].
    + rewrite H1. reflexivity.
Qed.

Lemma inner_errors_paths shape net values k :
  In k (map fst (inner_errors shape net values)) <->
  Exists (fun fs => field_name (fst fs) = k /\
                    validate (snd fs) net
                      (prepareDataForValidation (getIn values (fst fs))) <> [])
         shape.
Proof.
  unfold inner_errors.
  induction shape as [|fs shape IH]; simpl.
  - rewrite Exists_nil. tauto.
  - rewrite Exists_cons, <- IH, map_app, in_app_iff, map_map. simpl.
    enough (In k (map (fun _ : string => field_name (fst fs))
                      (validate (snd fs) net
                         (prepareDataForValidation (getIn values (fst fs)))))
            <-> field_name (fst fs) = k /\
                validate (snd fs) net
                  (prepareDataForValidation (getIn values (fst fs))) <> [])
      by tauto.
    destruct (validate _ _ _) as [|m l]; simpl.
    + intuition congruence.
    + split; [| tauto]. intros [H | H]; [split; [assumption | discriminate] |].
      apply in_map_iff in H as (? & H & _). split; [assumption | discriminate].
Qed.

(** When each field of the form is free of messages. *)
Lemma lookup_required net values f :
  required_field f = true -> f <> Email ->
  runValidationSchema registrationSchema net values !! field_name f = None <->
  getIn values f <> [].
Proof.
  intros Hreq Hf. unfold runValidationSchema.
  rewrite yupToFormErrors_lookup_None, inner_errors_paths.
  unfold registrationSchema. rewrite !Exists_cons, Exists_nil.
  cbn [fst snd]. rewrite !required_reports.
  destruct f; try discriminate; try congruence; cbn [field_name getIn];
    intuition (try discriminate).
Qed.

Lemma lookup_email net values :
  runValidationSchema registrationSchema net values !! "email" = None <->
  getIn values Email <> [] /\
  Regex.test rEmail (getIn values Email) = true /\
  Regex.test corporate (getIn values Email) = true /\
  settle net (email_available (Some (getIn values Email))) = true.
Proof.
  unfold runValidationSchema.
  rewrite yupToFormErrors_lookup_None, inner_errors_paths.
  unfold registrationSchema. rewrite !Exists_cons, Exists_nil.
  cbn [fst snd field_name]. rewrite <- validate_email_schema.
  split.
  - intros H. destruct (validate email_schema net _); [reflexivity |].
    exfalso. apply H. right; right; left. split; [reflexivity | discriminate].
  - intros E. rewrite E. intuition (discriminate || congruence).
Qed.

Lemma lookup_patronymic net values :
  runValidationSchema registrationSchema net values !! "patronymic" = None.
Proof.
  unfold runValidationSchema.
  rewrite yupToFormErrors_lookup_None, inner_errors_paths.
  unfold registrationSchema. rewrite !Exists_cons, Exists_nil.
  cbn [fst snd field_name]. intuition discriminate.
Qed.

Lemma isValid_registration net values :
  isValid (runValidationSchema registrationSchema net values) = true <->
  (forall f, required_field f = true -> getIn values f <> []) /\
  Regex.test rEmail (getIn values Email) = true /\
  Regex.test corporate (getIn values Email) = true /\
  settle net (email_available (Some (getIn values Email))) = true.
Proof.
  unfold runValidationSchema. rewrite isValid_inner, inner_errors_nil.
  unfold registrationSchema. rewrite !Forall_cons, Forall_nil.
  cbn [fst snd]. rewrite !required_reports, validate_email_schema.
  split.
  - intros (H1 & H2 & (H3 & H4 & H5 & H6) & H7 & H8 & H9 & _).
    split; [| tauto]. intros [] Hf; try assumption; discriminate.
  - intros (H & H4 & H5 & H6).
    repeat split; try assumption; apply H; reflexivity.
Qed.

Lemma requests_email_schema x :
  requests email_schema (prepareDataForValidation x) =
  if is_empty x then []
  else match encodeURIComponent x with
       | Some component => [check_email_url component]
       | None => []
       end.
Proof.
  destruct (is_empty x) eqn:Ex.
  - destruct x; [reflexivity | discriminate].
  - rewrite prepare_nonempty by (intros ->; discriminate).
    unfold requests, started, email_schema, test_, matches, email, required,
      add_test, string_, email_available, ToString.
    cbn [defined_message tests app flat_map run skipAbsent].
    destruct (encodeURIComponent x); reflexivity.
Qed.

Lemma validation_requests_registration values :
  validation_requests registrationSchema values =
  requests email_schema (prepareDataForValidation (getIn values Email)).
Proof.
  unfold validation_requests, registrationSchema. cbn [flat_map fst snd].
  rewrite !requests_required. cbn [app]. apply app_nil_r.
Qed.

Lemma corporate_no_surrogate s :
  corporate_address s -> Forall (fun c => c < 0xD800) s.
Proof.
  intros (local_part & _ & Hall & ->). apply Forall_app. split.
  - eapply Forall_impl; [exact Hall |]. intros c Hc.
    unfold local_char in Hc. class_arith. lia.
  - vm_compute. repeat (apply Forall_cons_2; [reflexivity |]).
    apply Forall_nil_2.
Qed.

(** For a corporate address the check is made, and its answer decides. *)
Lemma email_available_corporate net x :
  corporate_address x ->
  exists component,
    encodeURIComponent x = Some component /\
    settle net (email_available (Some x)) =
    match net (check_email_url component) with
    | Resolved available => available
    | Rejected => false
    end.
Proof.
  intros Hx. apply corporate_no_surrogate, encodeURIComponent_total in Hx.
  destruct Hx as [component E]. exists component. split; [assumption |].
  unfold email_available, ToString. rewrite E. reflexivity.
Qed.

Lemma email_available_rejected v :
  settle (fun _ => Rejected) (email_available v) = false.
Proof.
  unfold email_available. destruct (encodeURIComponent _); reflexivity.
Qed.

End ValidationFacts.

(** * The claims *)

Section SchemaClaims.
Import Regex URI Schema Formik Spec.
Import Yup(api_result, Resolved, Rejected, settle).

Lemma invalid_of_lookup errors f :
  errors !! field_name f <> None ->
  exists reason, validity errors f = Invalid reason.
Proof.
  unfold validity. destruct (errors !! field_name f) as [reason|];
    [eauto | congruence].
Qed.

Lemma valid_lookup errors f :
  validity errors f = Valid <-> errors !! field_name f = None.
Proof.
  unfold validity. destruct (errors !! field_name f);
    split; congruence.
Qed.

(** C3. Fail-closed availability check: when the request of the check is
    rejected (no connection, timeout, error status) the [email-available]
    test answers [false] for every value, the email field is [Invalid]
    and the form cannot be submitted. *)
Theorem availability_check_fails_closed
    (values : FormValues) (v : option jsstring) :
  settle (fun _ => Rejected) (email_available v) = false /\
  (exists reason,
     validity (runValidationSchema registrationSchema (fun _ => Rejected)
                 values) Email = Invalid reason) /\
  isSubmittable (runValidationSchema registrationSchema (fun _ => Rejected)
                   values) = false.
Proof.
  split; [apply email_available_rejected |]. split.
  - apply invalid_of_lookup. cbn [field_name]. intros H.
    apply lookup_email in H as (_ & _ & _ & H).
    rewrite email_available_rejected in H. discriminate.
  - unfold isSubmittable.
    destruct (isValid _) eqn:E; [| reflexivity].
    apply isValid_registration in E as (_ & _ & _ & H).
    rewrite email_available_rejected in H. discriminate.
Qed.

(** C4. Email pattern rule: the email field is [Valid] only if the value
    is a non-empty local part of letters, digits and [._%+-] followed by
    [@edu.hse.ru]. *)
Theorem valid_email_is_corporate
    (values : FormValues) (net : jsstring -> api_result) :
  validity (runValidationSchema registrationSchema net values) Email = Valid ->
  corporate_address (getIn values Email).
Proof.
  intros H. apply valid_lookup in H. cbn [field_name] in H.
  apply lookup_email in H as (_ & _ & H & _).
  apply corporate_spec. assumption.
Qed.

Lemma valid_email_is_corporate_witness :
  validity (runValidationSchema registrationSchema (fun _ => Resolved true)
              ivanov) Email = Valid /\
  corporate_address (getIn ivanov Email).
Proof.
  split; [vm_compute; reflexivity |].
  apply (valid_email_is_corporate ivanov (fun _ => Resolved true)).
  vm_compute. reflexivity.
Defined.

(** Any other string is marked [Invalid], whatever the check answers. *)
Lemma other_email_is_invalid (values : FormValues) (net : jsstring -> api_result) :
  ~ corporate_address (getIn values Email) ->
  exists reason,
    validity (runValidationSchema registrationSchema net values) Email
    = Invalid reason.
Proof.
  intros Hno. apply invalid_of_lookup. cbn [field_name]. intros H.
  apply lookup_email in H as (_ & _ & H & _).
  apply Hno, corporate_spec, H.
Qed.

Example gmail_is_invalid :
  validity (runValidationSchema registrationSchema (fun _ => Resolved true)
              (setIn ivanov Email (js "a@gmail.com"))) Email
  = Invalid "Только корпоративные email @edu.hse.ru".
Proof. vm_compute. reflexivity. Qed.

(** C5, amended. Submittability: a validation of a form whose required
    fields are all non-empty, whose email is a corporate address and
    whose email the check reports available finds no error, so the form
    can be submitted; an error object that lets the form be submitted
    gives no field a message.  The error object knows nothing of checks
    in flight: an edit of the email leaves it as it was, while the
    validation of the new value has only just been started. *)
Theorem valid_form_is_submittable
    (values : FormValues) (net : jsstring -> api_result)
    (errors : gmap string string) (f : field)
    (s : Screen.screen) (x : jsstring) :
  ((forall g, required_field g = true -> getIn values g <> []) ->
   corporate_address (getIn values Email) ->
   (forall url, net url = Resolved true) ->
   isSubmittable (runValidationSchema registrationSchema net values) = true)
  /\
  (isSubmittable errors = true ->
   forall reason, validity errors f <> Invalid reason)
  /\
  (Screen.errors (Screen.step s (Screen.Change Email x)) = Screen.errors s /\
   head (Screen.validating (Screen.step s (Screen.Change Email x)))
   = Some {| Screen.run_id := Screen.fresh s;
             Screen.run_values := setIn (Screen.values s) Email x;
             Screen.run_submit := false |}).
Proof.
  split; [| split].
  - intros Hreq Hmail Hnet. unfold isSubmittable.
    apply isValid_registration. split; [assumption |].
    split; [apply corporate_is_email; assumption |].
    split; [apply corporate_spec; assumption |].
    destruct (email_available_corporate net _ Hmail) as (component & _ & ->).
    rewrite Hnet. reflexivity.
  - unfold isSubmittable, isValid. rewrite bool_decide_eq_true. intros ->.
    intros reason. unfold validity. rewrite lookup_empty. discriminate.
  - split; reflexivity.
Qed.

Lemma valid_form_is_submittable_witness :
  isSubmittable (runValidationSchema registrationSchema
                   (fun _ => Resolved true) ivanov) = true /\
  validity (∅ : gmap string string) Email <> Invalid "Email обязателен".
Proof.
  destruct (valid_form_is_submittable ivanov (fun _ => Resolved true) ∅ Email
              Screen.initial [])
    as (Hsound & Honly & _).
  split.
  - apply Hsound.
    + intros g Hg. destruct g; first [discriminate Hg | vm_compute; discriminate].
    + exists (js "ivanov"). split; [discriminate |]. split; [| reflexivity].
      repeat (apply Forall_cons_2;
              [unfold local_char; vm_compute; intuition discriminate |]).
      apply Forall_nil_2.
    + reflexivity.
  - apply Honly. reflexivity.
Defined.

(** C6. Required-field rule: an empty surname, name, email, programme,
    year or group makes that field [Invalid] and the form not submittable;
    the patronymic has no rule and is always [Valid]. *)
Theorem empty_required_field_is_invalid
    (values : FormValues) (net : jsstring -> api_result) (f : field) :
  (required_field f = true -> getIn values f = [] ->
   (exists reason,
      validity (runValidationSchema registrationSchema net values) f
      = Invalid reason) /\
   isSubmittable (runValidationSchema registrationSchema net values) = false)
  /\
  validity (runValidationSchema registrationSchema net values) Patronymic
  = Valid.
Proof.
  split.
  - intros Hreq Hempty. split.
    + apply invalid_of_lookup. intros H.
      destruct (decide (f = Email)) as [->|Hf].
      * cbn [field_name] in H. apply lookup_email in H as (H & _). auto.
      * apply lookup_required in H; auto.
    + unfold isSubmittable. destruct (isValid _) eqn:E; [| reflexivity].
      apply isValid_registration in E as (H & _).
      apply H in Hreq. contradiction.
  - apply valid_lookup. cbn [field_name]. apply lookup_patronymic.
Qed.

Lemma empty_required_field_is_invalid_witness :
  required_field Group = true /\
  getIn (setIn ivanov Group []) Group = [] /\
  (exists reason,
     validity (runValidationSchema registrationSchema (fun _ => Resolved true)
                 (setIn ivanov Group [])) Group = Invalid reason) /\
  isSubmittable (runValidationSchema registrationSchema
                   (fun _ => Resolved true) (setIn ivanov Group [])) = false.
Proof.
  split; [reflexivity |]. split; [reflexivity |].
  apply (proj1 (empty_required_field_is_invalid
                  (setIn ivanov Group []) (fun _ => Resolved true) Group));
    reflexivity.
Defined.

End SchemaClaims.

(** ** The screen: requests, stale answers and submission *)
Section ScreenFacts.
Import Schema Formik Screen.

Lemma take_run_head id vals submit rest :
  take_run id ({| run_id := id; run_values := vals; run_submit := submit |}
               :: rest)
  = Some ({| run_id := id; run_values := vals; run_submit := submit |}, rest).
Proof. simpl. rewrite Nat.eqb_refl. reflexivity. Qed.

Lemma take_run_skip id r rest :
  run_id r <> id ->
  take_run id (r :: rest) =
  match take_run id rest with
  | Some (r', rest') => Some (r', r :: rest')
  | None => None
  end.
Proof.
  intros Hne. simpl. apply Nat.eqb_neq in Hne. rewrite Hne. reflexivity.
Qed.

Lemma registrations_GET l urls :
  List.filter is_register (l ++ map GET urls) = List.filter is_register l.
Proof.
  rewrite List.filter_app.
  replace (List.filter is_register (map GET urls)) with (@nil request).
  - apply app_nil_r.
  - induction urls; simpl; auto.
Qed.



(** A press on an idle screen, followed by the answer to its check. *)
Lemma submit_attempt_settled s0 answer :
  loading s0 = false ->
  steps s0 [Press; ValidationSettled (fresh s0) answer]
  = validation_settled
      {| run_id := fresh s0; run_values := values s0; run_submit := true |}
      (validating s0) answer (validateForm true (values s0) s0).
Proof.
  intros Hidle. unfold steps. cbn [fold_left]. cbn [step]. rewrite Hidle.
  cbn [validating validateForm]. rewrite take_run_head. reflexivity.
Qed.

End ScreenFacts.

Section ScreenClaims.
Import Regex URI Schema Formik Screen Spec.
Import Yup(api_result, Resolved, Rejected, settle).

(** C10. The request of the availability check: the email value is
    passed through [encodeURIComponent] before it is put behind
    [/api/check-email?email=], so the component consists of unreserved
    characters and [%XX] escapes only and holds none of the characters
    that structure a URL. *)
Theorem check_request_is_escaped (values : FormValues) (url : jsstring) :
  Forall code_unit (getIn values Email) ->
  In url (validation_requests registrationSchema values) ->
  exists component,
    encodeURIComponent (getIn values Email) = Some component /\
    url = js "/api/check-email?email=" ++ component /\
    escaped component /\
    Forall (fun c => c <> cu "&" /\ c <> cu "+" /\ c <> cu "=" /\
                     c <> cu "#" /\ c <> cu "?" /\ c <> cu "/" /\
                     c <> cu " ") component.
Proof.
  intros Hwf Hin.
  rewrite validation_requests_registration, requests_email_schema in Hin.
  destruct (Yup.is_empty _); [destruct Hin |].
  destruct (encodeURIComponent _) as [component|] eqn:E; [| destruct Hin].
  destruct Hin as [<- | []].
  exists component. split; [reflexivity |]. split; [reflexivity |].
  pose proof (encodeURIComponent_escaped _ Hwf _ E) as Hesc.
  split; [assumption |].
  eapply Forall_impl; [apply escaped_chars; exact Hesc |].
  intros c Hc. unfold unreserved, is_hex in Hc. class_arith. lia.
Qed.

Lemma check_request_is_escaped_witness :
  Forall code_unit (js "a+b%c&d@edu.hse.ru") /\
  In (js "/api/check-email?email=a%2Bb%25c%26d%40edu.hse.ru")
     (validation_requests registrationSchema
        (setIn ivanov Email (js "a+b%c&d@edu.hse.ru"))) /\
  exists component,
    encodeURIComponent (js "a+b%c&d@edu.hse.ru") = Some component /\
    js "/api/check-email?email=a%2Bb%25c%26d%40edu.hse.ru"
    = js "/api/check-email?email=" ++ component /\
    escaped component /\
    Forall (fun c => c <> cu "&" /\ c <> cu "+" /\ c <> cu "=" /\
                     c <> cu "#" /\ c <> cu "?" /\ c <> cu "/" /\
                     c <> cu " ") component.
Proof.
  assert (Hwf : Forall code_unit (js "a+b%c&d@edu.hse.ru")).
  { unfold code_unit. vm_compute.
    repeat (apply Forall_cons_2; [reflexivity |]). apply Forall_nil_2. }
  assert (Hin : In (js "/api/check-email?email=a%2Bb%25c%26d%40edu.hse.ru")
                   (validation_requests registrationSchema
                      (setIn ivanov Email (js "a+b%c&d@edu.hse.ru")))).
  { vm_compute. left. reflexivity. }
  split; [exact Hwf |]. split; [exact Hin |].
  exact (check_request_is_escaped
           (setIn ivanov Email (js "a+b%c&d@edu.hse.ru")) _ Hwf Hin).
Defined.

(** C7 as stated does not hold: for [a@gmail.com], which fails the
    pattern, the availability check is sent all the same. *)
Lemma check_dispatched_for_malformed_email :
  Regex.test corporate (js "a@gmail.com") = false /\
  sent (step initial (Change Email (js "a@gmail.com")))
  = [GET (js "/api/check-email?email=a%40gmail.com")].
Proof. split; vm_compute; reflexivity. Qed.

(** C7, amended. The availability check is not held back by the
    pattern: a change of the email field sends the check exactly when
    the new value is non-empty and [encodeURIComponent] can encode it,
    whether or not the value passes the pattern; a value that fails the
    pattern is [Invalid] whatever the check answers. *)
Theorem check_dispatched_whatever_the_pattern
    (s : screen) (x : jsstring) (net : jsstring -> api_result) :
  sent (step s (Change Email x))
  = sent s ++
    (if Yup.is_empty x then []
     else match encodeURIComponent x with
          | Some component => [GET (js "/api/check-email?email=" ++ component)]
          | None => []
          end) /\
  (Regex.test corporate x = false ->
   exists reason,
     validity (runValidationSchema registrationSchema net
                 (setIn (values s) Email x)) Email = Invalid reason).
Proof.
  split.
  - cbn [step validateForm sent setValues values].
    rewrite validation_requests_registration, requests_email_schema.
    cbn [getIn setIn email].
    destruct (Yup.is_empty x); [reflexivity |].
    destruct (encodeURIComponent x); reflexivity.
  - intros Hpat. apply invalid_of_lookup. cbn [field_name]. intros H.
    apply lookup_email in H as (_ & _ & H & _).
    cbn [getIn setIn email] in H. congruence.
Qed.

Lemma check_dispatched_whatever_the_pattern_witness :
  Regex.test corporate (js "a@gmail.com") = false /\
  sent (step initial (Change Email (js "a@gmail.com")))
  = sent initial ++ [GET (js "/api/check-email?email=" ++ js "a%40gmail.com")] /\
  exists reason,
    validity (runValidationSchema registrationSchema (fun _ => Resolved true)
                (setIn (values initial) Email (js "a@gmail.com"))) Email
    = Invalid reason.
Proof.
  assert (Hpat : Regex.test corporate (js "a@gmail.com") = false)
    by (vm_compute; reflexivity).
  destruct (check_dispatched_whatever_the_pattern initial (js "a@gmail.com")
              (fun _ => Resolved true)) as [Hsent Hinvalid].
  split; [exact Hpat |].
  split; [exact Hsent | exact (Hinvalid Hpat)].
Defined.

(** C1 as stated does not hold: the email is edited to [a@edu.hse.ru]
    and then to [b@edu.hse.ru]; the check for [b] answers first
    (available), the check for [a] answers last (taken).  The field holds
    [b], whose own validation makes it [Valid], and yet the answer for
    [a] is what the form keeps. *)
Lemma stale_check_overwrites_latest :
  let s := steps initial
             [Change Email (js "a@edu.hse.ru");
              Change Email (js "b@edu.hse.ru");
              ValidationSettled 1 (Resolved true);
              ValidationSettled 0 (Resolved false)] in
  getIn (values s) Email = js "b@edu.hse.ru" /\
  validity (runValidationSchema registrationSchema (fun _ => Resolved true)
              (values s)) Email = Valid /\
  validity (errors s) Email = Invalid "Email уже зарегистрирован".
Proof. vm_compute. repeat split. Qed.

(** C1, amended. There is no supersession: the errors of a validation
    run are stored when the run settles.  After two edits of the email,
    the errors kept are those of the run that settles last: those of the
    edit [b] when the checks answer in the order they were sent, those of
    the edit [a] when the check for [a] answers after the check for
    [b]. *)
Theorem last_settled_validation_wins
    (s : screen) (a b : jsstring) (ra rb : api_result) :
  errors (steps s [Change Email a; Change Email b;
                   ValidationSettled (fresh s) ra;
                   ValidationSettled (S (fresh s)) rb])
  = runValidationSchema registrationSchema (fun _ => rb)
      (setIn (values s) Email b)
  /\
  errors (steps s [Change Email a; Change Email b;
                   ValidationSettled (S (fresh s)) rb;
                   ValidationSettled (fresh s) ra])
  = runValidationSchema registrationSchema (fun _ => ra)
      (setIn (values s) Email a).
Proof.
  assert (Hne : Nat.eqb (S (fresh s)) (fresh s) = false)
    by (apply Nat.eqb_neq; lia).
  split.
  - cbn [steps fold_left step validateForm setValues values validating fresh].
    cbn [take_run run_id]. rewrite Hne, Nat.eqb_refl.
    cbn [validation_settled run_submit run_values andb errors validating
         values fresh take_run run_id].
    rewrite Nat.eqb_refl.
    cbn [validation_settled run_submit run_values andb errors].
    reflexivity.
  - cbn [steps fold_left step validateForm setValues values validating fresh].
    cbn [take_run run_id]. rewrite Nat.eqb_refl.
    cbn [validation_settled run_submit run_values andb errors validating
         values fresh take_run run_id].
    rewrite Nat.eqb_refl.
    cbn [validation_settled run_submit run_values andb errors].
    reflexivity.
Qed.




(** A payload whose message is the empty string has no message to show:
    the alert carries the fallback. *)
Example empty_server_message_replaced :
  let s := steps (setValues ivanov initial)
             [Press; ValidationSettled 0 (Resolved true);
              RegisterSettled 1 (Failed (Some EmptyString))] in
  alerts s = [("Ошибка", "Ошибка сервера")] /\ "Ошибка сервера" <> EmptyString.
Proof. split; [vm_compute; reflexivity | discriminate]. Qed.

(** C8. When the registration request fails, the alert carries the
    message of the error payload if it has one to show (a non-empty
    text) and the fallback text otherwise; [loading] is reset, and the
    next press of the button starts a new submit attempt. *)
Theorem failed_registration_alerts_and_allows_retry
    (s : screen) (id : nat) (message : option string) :
  is_Some (take_id id (registering s)) ->
  let s' := step s (RegisterSettled id (Failed message)) in
  alerts s'
  = alerts s ++
    [("Ошибка",
      match message with
      | Some m => if String.eqb m EmptyString then "Ошибка сервера" else m
      | None => "Ошибка сервера"
      end)] /\
  loading s' = false /\
  step s' Press = validateForm true (values s') s'.
Proof.
  intros [rest Hin]. cbn [step]. rewrite Hin.
  cbn [handleSubmit_settled setLoading alerts loading values alert_of step].
  split; [| split; reflexivity].
  destruct message as [m|]; [| reflexivity].
  unfold truthy. destruct (String.eqb m EmptyString); reflexivity.
Qed.

Lemma failed_registration_alerts_and_allows_retry_witness :
  let s := steps (setValues ivanov initial)
             [Press; ValidationSettled 0 (Resolved true)] in
  let s' := step s (RegisterSettled 1 (Failed (Some "Email занят"))) in
  is_Some (take_id 1 (registering s)) /\
  alerts s' = alerts s ++ [("Ошибка", "Email занят")] /\
  loading s' = false /\
  step s' Press = validateForm true (values s') s'.
Proof.
  intros s s'.
  assert (Hin : is_Some (take_id 1 (registering s)))
    by (vm_compute; eexists; reflexivity).
  split; [exact Hin |].
  exact (failed_registration_alerts_and_allows_retry s 1%nat
           (Some "Email занят") Hin).
Defined.

(** C9. [handleSubmit] sets [loading] on entry, and when its request
    settles, with success, with an error of the server or with no answer
    at all, [loading] is reset. *)
Theorem loading_reset_on_every_outcome
    (s : screen) (vals : FormValues) (s' : screen) (id : nat)
    (result : post_result) :
  loading (handleSubmit vals s) = true /\
  take_id (fresh s) (registering (handleSubmit vals s)) = Some (registering s) /\
  (is_Some (take_id id (registering s')) ->
   loading (step s' (RegisterSettled id result)) = false).
Proof.
  split; [reflexivity |]. split.
  - cbn [handleSubmit setLoading registering fresh take_id].
    rewrite Nat.eqb_refl. reflexivity.
  - intros [rest Hin]. cbn [step]. rewrite Hin. reflexivity.
Qed.

Lemma loading_reset_on_every_outcome_witness :
  let s := handleSubmit ivanov (setValues ivanov initial) in
  is_Some (take_id 0 (registering s)) /\
  loading (step s (RegisterSettled 0 Created)) = false /\
  loading (step s (RegisterSettled 0 (Failed (Some "Email занят")))) = false /\
  loading (step s (RegisterSettled 0 (Failed None))) = false.
Proof.
  intros s.
  assert (Hin : is_Some (take_id 0 (registering s)))
    by (vm_compute; eexists; reflexivity).
  split; [exact Hin |].
  split; [| split].
  - exact (proj2 (proj2 (loading_reset_on_every_outcome
                           initial ivanov s 0%nat Created)) Hin).
  - exact (proj2 (proj2 (loading_reset_on_every_outcome
                           initial ivanov s 0%nat
                           (Failed (Some "Email занят")))) Hin).
  - exact (proj2 (proj2 (loading_reset_on_every_outcome
                           initial ivanov s 0%nat (Failed None))) Hin).
Defined.

(** C5 as stated does not hold for the error object the screen keeps: a
    valid email has been checked and found available, so the error
    object is empty; the email is then edited to [a@gmail.com].  The
    check of the new value is in flight and the new value fails the
    pattern, and still the error object says that the form can be
    submitted. *)
Lemma submittable_while_check_pending :
  let s := steps (setValues ivanov initial)
             [Change Email (js "ivanov@edu.hse.ru");
              ValidationSettled 0 (Resolved true);
              Change Email (js "a@gmail.com")] in
  isSubmittable (errors s) = true /\
  map run_values (validating s) = [values s] /\
  getIn (values s) Email = js "a@gmail.com" /\
  validity (runValidationSchema registrationSchema (fun _ => Resolved true)
              (values s)) Email
  = Invalid "Только корпоративные email @edu.hse.ru".
Proof. vm_compute. repeat split. Qed.

End ScreenClaims.

(** * Further properties of the schema *)

Section MessageFacts.
Import Regex URI Yup Schema Formik Spec.

Lemma keep_first_lookup_ne errors err k :
  k <> fst err -> keep_first errors err !! k = errors !! k.
Proof.
  intros Hne. unfold keep_first.
  destruct (truthy _); [reflexivity |].
  apply lookup_insert_ne. congruence.
Qed.

Lemma keep_first_lookup_kept errors err k m :
  errors !! k = Some m -> m <> EmptyString ->
  keep_first errors err !! k = Some m.
Proof.
  intros Hk Hm. destruct (decide (k = fst err)) as [->|Hne].
  - unfold keep_first, truthy. rewrite Hk.
    destruct (String.eqb_spec m EmptyString); [contradiction | exact Hk].
  - rewrite keep_first_lookup_ne; assumption.
Qed.

Lemma fold_keep_first_other l : forall errors k,
  ~ In k (map fst l) -> fold_left keep_first l errors !! k = errors !! k.
Proof.
  induction l as [|err l IH]; intros errors k Hk; simpl in *; [reflexivity |].
  rewrite IH by tauto. apply keep_first_lookup_ne. intros ->. tauto.
Qed.

Lemma fold_keep_first_kept l : forall errors k m,
  errors !! k = Some m -> m <> EmptyString ->
  fold_left keep_first l errors !! k = Some m.
Proof.
  induction l as [|err l IH]; intros errors k m Hk Hm; simpl; [exact Hk |].
  apply IH; [apply keep_first_lookup_kept |]; assumption.
Qed.

(** The first message reported for a path is the one kept. *)
Lemma yupToFormErrors_first l1 k m l2 :
  ~ In k (map fst l1) -> m <> EmptyString ->
  yupToFormErrors (l1 ++ (k, m) :: l2) !! k = Some m.
Proof.
  intros Hk Hm. unfold yupToFormErrors. rewrite fold_left_app. simpl.
  apply fold_keep_first_kept; [| assumption].
  unfold keep_first, truthy.
  rewrite fold_keep_first_other, lookup_empty by assumption.
  apply lookup_insert_eq.
Qed.

Lemma inner_errors_app pre post net values :
  inner_errors (pre ++ post) net values
  = inner_errors pre net values ++ inner_errors post net values.
Proof. unfold inner_errors. apply flat_map_app. Qed.

(** The message kept for a field of a schema is the first one its own
    validation reports. *)
Lemma lookup_first_message pre f sch post net values m rest :
  Forall (fun fs => field_name (fst fs) <> field_name f) pre ->
  validate sch net (prepareDataForValidation (getIn values f)) = m :: rest ->
  m <> EmptyString ->
  runValidationSchema (pre ++ (f, sch) :: post) net values !! field_name f
  = Some m.
Proof.
  intros Hpre Hval Hm. unfold runValidationSchema.
  rewrite inner_errors_app.
  change ((f, sch) :: post) with ([(f, sch)] ++ post).
  rewrite inner_errors_app. unfold inner_errors at 2.
  cbn [flat_map fst snd]. rewrite Hval, app_nil_r. cbn [map].
  cbn [app].
  apply yupToFormErrors_first; [| assumption].
  rewrite inner_errors_paths. rewrite Exists_exists.
  intros (fs & Hin & Hname & _). rewrite Forall_forall in Hpre.
  exact (Hpre fs Hin Hname).
Qed.

Lemma lookup_no_message pre f sch post net values :
  Forall (fun fs => field_name (fst fs) <> field_name f) pre ->
  Forall (fun fs => field_name (fst fs) <> field_name f) post ->
  validate sch net (prepareDataForValidation (getIn values f)) = [] ->
  runValidationSchema (pre ++ (f, sch) :: post) net values !! field_name f
  = None.
Proof.
  intros Hpre Hpost Hval. unfold runValidationSchema.
  rewrite yupToFormErrors_lookup_None, inner_errors_paths.
  rewrite Exists_app, Exists_cons, !Exists_exists. cbn [fst snd].
  rewrite Forall_forall in Hpre, Hpost.
  intros [(fs & Hin & Hname & _) | [[_ Hne] | (fs & Hin & Hname & _)]].
  - exact (Hpre fs Hin Hname).
  - contradiction.
  - exact (Hpost fs Hin Hname).
Qed.

(** The messages of the email field, in the order yup reports them. *)
Lemma validate_email_list net x :
  validate email_schema net (prepareDataForValidation x) =
  if is_empty x then ["Email обязателен"]
  else
    (if Regex.test rEmail x then [] else ["Некорректный формат email"]) ++
    (if Regex.test corporate x then []
     else ["Только корпоративные email @edu.hse.ru"]) ++
    (if settle net (email_available (Some x)) then []
     else ["Email уже зарегистрирован"]).
Proof.
  destruct (is_empty x) eqn:Ex.
  - destruct x; [reflexivity | discriminate].
  - rewrite prepare_nonempty by (intros ->; discriminate).
    unfold validate, email_schema, test_, matches, email, required, add_test,
      string_, failed.
    cbn [defined_message tests app List.filter map run message skipAbsent
         answers_at_once settle andb negb].
    rewrite Ex. cbn [negb orb andb List.filter app map message].
    destruct (Regex.test rEmail x), (Regex.test corporate x);
      cbn [negb orb andb List.filter app map message];
      destruct (email_available (Some x)) as [ok|url k];
      cbn [answers_at_once settle negb orb andb List.filter app map message];
      try destruct ok; try destruct (k (net url));
      reflexivity.
Qed.

End MessageFacts.

Section MessageProperties.
Import Regex URI Yup Schema Formik Spec.

Lemma validate_messages sch net v m :
  In m (validate sch net v) ->
  defined_message sch = Some m \/ In m (map message (tests sch)).
Proof.
  unfold validate. intros H.
  assert (Htests :
    In m (map message
            (List.filter (fun t => answers_at_once (run t v) && failed net v t)
               (tests sch) ++
             List.filter
               (fun t => negb (answers_at_once (run t v)) && failed net v t)
               (tests sch))) ->
    In m (map message (tests sch))).
  { rewrite !in_map_iff. intros (t & <- & Ht). exists t. split; [reflexivity |].
    apply in_app_iff in Ht as [Ht | Ht]; apply filter_In in Ht; tauto. }
  destruct v as [x|], (defined_message sch) as [msg|]; auto.
  destruct H as [<- | []]. auto.
Qed.

Lemma registration_messages f sch net values m :
  In (f, sch) registrationSchema ->
  In m (validate sch net (prepareDataForValidation (getIn values f))) ->
  m <> EmptyString.
Proof.
  intros Hin Hm. apply validate_messages in Hm.
  unfold registrationSchema in Hin. cbn [In] in Hin.
  repeat (destruct Hin as [[= <- <-] | Hin];
          [cbn in Hm; intuition (subst; try discriminate) |]).
  destruct Hin.
Qed.

(** Each field of the schema shows the first message of its own chain. *)
Lemma lookup_field net values f sch :
  In (f, sch) registrationSchema ->
  runValidationSchema registrationSchema net values !! field_name f
  = head (validate sch net (prepareDataForValidation (getIn values f))).
Proof.
  intros Hin.
  assert (Hmsg := registration_messages f sch net values).
  assert (Hsplit : exists pre post,
            registrationSchema = pre ++ (f, sch) :: post /\
            Forall (fun fs => field_name (fst fs) <> field_name f) pre /\
            Forall (fun fs => field_name (fst fs) <> field_name f) post).
  { unfold registrationSchema in *. cbn [In] in Hin.
    destruct Hin as [[= <- <-] | Hin];
      [exists [], (tl registrationSchema) |].
    2: destruct Hin as [[= <- <-] | Hin];
      [exists (firstn 1 registrationSchema), (skipn 2 registrationSchema) |].
    3: destruct Hin as [[= <- <-] | Hin];
      [exists (firstn 2 registrationSchema), (skipn 3 registrationSchema) |].
    4: destruct Hin as [[= <- <-] | Hin];
      [exists (firstn 3 registrationSchema), (skipn 4 registrationSchema) |].
    5: destruct Hin as [[= <- <-] | Hin];
      [exists (firstn 4 registrationSchema), (skipn 5 registrationSchema) |].
    6: destruct Hin as [[= <- <-] | []];
      exists (firstn 5 registrationSchema), (skipn 6 registrationSchema).
    all: split; [reflexivity |]; cbn;
      split; repeat (apply Forall_cons_2; [discriminate |]);
      apply Forall_nil_2. }
  destruct Hsplit as (pre & post & -> & Hpre & Hpost).
  destruct (validate sch net _) as [|m rest] eqn:Hval; cbn [head].
  - apply lookup_no_message; assumption.
  - eapply lookup_first_message; [assumption | exact Hval |].
    apply Hmsg; [exact Hin | left; reflexivity].
Qed.

Lemma lookup_unknown net values k :
  (forall f, In f [Surname; Name; Email; ProgramId; YearAdmission; Group] ->
             field_name f <> k) ->
  runValidationSchema registrationSchema net values !! k = None.
Proof.
  intros Hk. unfold runValidationSchema.
  rewrite yupToFormErrors_lookup_None, inner_errors_paths, Exists_exists.
  intros ([f sch] & Hin & Hname & _). cbn [fst] in Hname.
  apply (Hk f); [| assumption].
  apply list_elem_of_In in Hin.
  unfold registrationSchema in Hin. cbn [In] in *.
  repeat (destruct Hin as [[= <- _] | Hin]; [auto 10 |]).
  destruct Hin.
Qed.

End MessageProperties.

Section SchemaProperties.
Import Regex URI Schema Formik Screen Spec.
Import Yup(api_result, Resolved, Rejected, settle, is_empty, rEmail).

Lemma email_in_schema : In (Email, email_schema) registrationSchema.
Proof. unfold registrationSchema. cbn [In]. auto. Qed.

(** X1. Which message the email field shows: the first failure in the
    order required, format, corporate pattern, availability. *)
Theorem email_field_message
    (values : FormValues) (net : jsstring -> api_result) :
  runValidationSchema registrationSchema net values !! "email" =
  if is_empty (getIn values Email) then Some "Email обязателен"
  else if negb (Regex.test rEmail (getIn values Email))
  then Some "Некорректный формат email"
  else if negb (Regex.test corporate (getIn values Email))
  then Some "Только корпоративные email @edu.hse.ru"
  else if negb (settle net (email_available (Some (getIn values Email))))
  then Some "Email уже зарегистрирован"
  else None.
Proof.
  change "email" with (field_name Email).
  rewrite (lookup_field net values Email email_schema email_in_schema).
  rewrite validate_email_list.
  destruct (is_empty _); [reflexivity |].
  destruct (Regex.test rEmail _); [| reflexivity].
  destruct (Regex.test corporate _); [| reflexivity].
  destruct (settle net _); reflexivity.
Qed.

(** X2. The five plain required fields: an empty value shows the message
    given to [required], any other value shows nothing. *)
Theorem required_field_messages
    (values : FormValues) (net : jsstring -> api_result) :
  let errs := runValidationSchema registrationSchema net values in
  errs !! "surname"
  = (if is_empty (getIn values Surname) then Some "Фамилия обязательна"
     else None) /\
  errs !! "name"
  = (if is_empty (getIn values Name) then Some "Имя обязательно" else None) /\
  errs !! "programId"
  = (if is_empty (getIn values ProgramId) then Some "Выберите направление"
     else None) /\
  errs !! "yearAdmission"
  = (if is_empty (getIn values YearAdmission)
     then Some "Укажите год поступления" else None) /\
  errs !! "group"
  = (if is_empty (getIn values Group) then Some "Укажите группу" else None).
Proof.
  cbv zeta.
  change "surname" with (field_name Surname).
  change "name" with (field_name Name).
  change "programId" with (field_name ProgramId).
  change "yearAdmission" with (field_name YearAdmission).
  change "group" with (field_name Group).
  repeat split;
    (erewrite lookup_field by (unfold registrationSchema; cbn [In]; auto 10);
     rewrite validate_required; destruct (is_empty _); reflexivity).
Qed.

(** X3. For a corporate address the check is always made, and the only
    message the field can show is that the email is registered already:
    when the check says so, and equally when the request fails. *)
Theorem corporate_email_message
    (values : FormValues) (net : jsstring -> api_result) :
  corporate_address (getIn values Email) ->
  exists component,
    encodeURIComponent (getIn values Email) = Some component /\
    runValidationSchema registrationSchema net values !! "email" =
    match net (check_email_url component) with
    | Resolved true => None
    | Resolved false | Rejected => Some "Email уже зарегистрирован"
    end.
Proof.
  intros Hx.
  destruct (email_available_corporate net _ Hx) as (component & Henc & Hset).
  exists component. split; [assumption |].
  change "email" with (field_name Email).
  rewrite (lookup_field net values Email email_schema email_in_schema).
  rewrite validate_email_list.
  rewrite (corporate_is_email _ Hx), (proj2 (corporate_spec _) Hx), Hset.
  destruct Hx as (local_part & Hne & _ & ->).
  destruct local_part; [congruence |]. cbn [app is_empty].
  destruct (net _) as [[|]|]; reflexivity.
Qed.

Lemma corporate_email_message_witness :
  corporate_address (getIn ivanov Email) /\
  exists component,
    encodeURIComponent (getIn ivanov Email) = Some component /\
    runValidationSchema registrationSchema (fun _ => Rejected) ivanov
      !! "email" =
    match (fun _ : jsstring => Rejected) (check_email_url component) with
    | Resolved true => None
    | Resolved false | Rejected => Some "Email уже зарегистрирован"
    end.
Proof.
  assert (H : corporate_address (getIn ivanov Email)).
  { apply corporate_spec. vm_compute. reflexivity. }
  split; [exact H |].
  exact (corporate_email_message ivanov (fun _ => Rejected) H).
Defined.

(** X4. Editing one field changes the message of that field only. *)
Theorem other_fields_keep_their_message
    (values : FormValues) (net : jsstring -> api_result)
    (f : field) (x : jsstring) (k : string) :
  k <> field_name f ->
  runValidationSchema registrationSchema net (setIn values f x) !! k
  = runValidationSchema registrationSchema net values !! k.
Proof.
  intros Hk.
  assert (Hcases :
    (exists g sch, In (g, sch) registrationSchema /\ field_name g = k) \/
    (forall g, In g [Surname; Name; Email; ProgramId; YearAdmission; Group] ->
               field_name g <> k)).
  { destruct (decide (k = "surname")) as [->|];
      [left; exists Surname; eexists; split; [left; reflexivity | reflexivity] |].
    destruct (decide (k = "name")) as [->|];
      [left; exists Name; eexists; split;
         [right; left; reflexivity | reflexivity] |].
    destruct (decide (k = "email")) as [->|];
      [left; exists Email; eexists; split;
         [do 2 right; left; reflexivity | reflexivity] |].
    destruct (decide (k = "programId")) as [->|];
      [left; exists ProgramId; eexists; split;
         [do 3 right; left; reflexivity | reflexivity] |].
    destruct (decide (k = "yearAdmission")) as [->|];
      [left; exists YearAdmission; eexists; split;
         [do 4 right; left; reflexivity | reflexivity] |].
    destruct (decide (k = "group")) as [->|];
      [left; exists Group; eexists; split;
         [do 5 right; left; reflexivity | reflexivity] |].
    right. intros g Hg. cbn [In] in Hg.
    repeat (destruct Hg as [<- | Hg]; [cbn [field_name]; congruence |]).
    destruct Hg. }
  destruct Hcases as [(g & sch & Hin & <-) | Hunknown].
  - rewrite !(lookup_field net _ g sch Hin).
    assert (Hg : getIn (setIn values f x) g = getIn values g).
    { destruct f, g; try reflexivity; exfalso; apply Hk; reflexivity. }
    rewrite Hg. reflexivity.
  - rewrite !lookup_unknown by assumption. reflexivity.
Qed.

Lemma other_fields_keep_their_message_witness :
  "email" <> field_name Surname /\
  runValidationSchema registrationSchema (fun _ => Resolved false)
    (setIn ivanov Surname []) !! "email"
  = runValidationSchema registrationSchema (fun _ => Resolved false) ivanov
      !! "email".
Proof.
  assert (H : "email" <> field_name Surname) by discriminate.
  split; [exact H |].
  exact (other_fields_keep_their_message ivanov (fun _ => Resolved false)
           Surname [] "email" H).
Defined.

(** X5. The form passes validation exactly when the six required fields
    are filled in, the email is a corporate address and the check has
    answered that it is available. *)
Theorem submittable_iff
    (values : FormValues) (net : jsstring -> api_result) :
  isSubmittable (runValidationSchema registrationSchema net values) = true <->
  (forall f, required_field f = true -> getIn values f <> []) /\
  corporate_address (getIn values Email) /\
  settle net (email_available (Some (getIn values Email))) = true.
Proof.
  unfold isSubmittable. rewrite isValid_registration. split.
  - intros (Hreq & _ & Hpat & Hset). apply corporate_spec in Hpat. tauto.
  - intros (Hreq & Hx & Hset).
    split; [assumption |]. split; [apply corporate_is_email; assumption |].
    split; [apply corporate_spec; assumption | assumption].
Qed.

(** X6. A validation run sends at most one request, and which one
    depends on the email alone: a change of any other field sends the
    check of the unchanged email once more. *)
Theorem other_field_change_repeats_check
    (s : screen) (f : field) (x : jsstring) :
  f <> Email ->
  sent (step s (Change f x))
  = sent s ++ map GET (validation_requests registrationSchema (values s)) /\
  (List.length (validation_requests registrationSchema (values s)) <= 1)%nat.
Proof.
  intros Hf. split.
  - cbn [step validateForm sent setValues values].
    rewrite !validation_requests_registration.
    replace (getIn (setIn (values s) f x) Email) with (getIn (values s) Email)
      by (destruct f; try reflexivity; congruence).
    reflexivity.
  - rewrite validation_requests_registration, requests_email_schema.
    destruct (is_empty _); [simpl; lia |].
    destruct (encodeURIComponent _); simpl; lia.
Qed.

Lemma other_field_change_repeats_check_witness :
  Surname <> Email /\
  sent (step (setValues ivanov initial) (Change Surname (js "Petrov")))
  = [GET (js "/api/check-email?email=ivanov%40edu.hse.ru")].
Proof.
  assert (H : Surname <> Email) by discriminate.
  split; [exact H |].
  exact (proj1 (other_field_change_repeats_check
                  (setValues ivanov initial) Surname (js "Petrov") H)).
Defined.

(** X7. A validation run sends no request exactly when the email is
    empty or cannot be encoded (it holds an unpaired surrogate). *)
Theorem no_request_iff (values : FormValues) :
  validation_requests registrationSchema values = [] <->
  getIn values Email = [] \/ encodeURIComponent (getIn values Email) = None.
Proof.
  rewrite validation_requests_registration, requests_email_schema.
  destruct (getIn values Email) as [|c x] eqn:E; cbn [is_empty].
  - tauto.
  - destruct (encodeURIComponent (c :: x)); split; intros H.
    + discriminate.
    + destruct H; discriminate.
    + auto.
    + reflexivity.
Qed.

End SchemaProperties.

(** * Further properties of [encodeURIComponent] *)

#[local] Ltac Zify.zify_post_hook ::= Z.to_euclidean_division_equations.

Section EncodingFacts.
Import URI.

Lemma hex_digit_inj a b :
  a < 16 -> b < 16 -> hex_digit a = hex_digit b -> a = b.
Proof.
  unfold hex_digit. intros Ha Hb.
  destruct (a <? 10) eqn:Ea, (b <? 10) eqn:Eb; class_arith; lia.
Qed.

Lemma percent_app_inj a b e e' :
  a < 256 -> b < 256 -> percent a ++ e = percent b ++ e' -> a = b /\ e = e'.
Proof.
  intros Ha Hb. unfold percent. cbn [app]. intros [= Hh Hl He].
  split; [| assumption].
  apply hex_digit_inj in Hh; [| lia ..].
  apply hex_digit_inj in Hl; [| lia ..].
  lia.
Qed.

Lemma octets_app_inj l : forall l' e e',
  Forall (fun o => o < 256) l -> Forall (fun o => o < 256) l' ->
  List.length l = List.length l' ->
  List.concat (map percent l) ++ e = List.concat (map percent l') ++ e' ->
  l = l' /\ e = e'.
Proof.
  induction l as [|o l IH]; intros [|o' l'] e e' Hl Hl' Hlen; try discriminate.
  - simpl. auto.
  - cbn [map List.concat]. rewrite <- !app_assoc. intros H.
    apply Forall_cons_1 in Hl as [Ho Hl].
    apply Forall_cons_1 in Hl' as [Ho' Hl'].
    apply percent_app_inj in H as [-> H]; [| assumption ..].
    apply IH in H as [-> ->]; auto.
Qed.

Lemma utf8_head cp :
  cp < 0x110000 ->
  exists o rest, utf8 cp = o :: rest /\
                 List.length (utf8 cp) = utf8_length o.
Proof.
  intros Hcp. unfold utf8.
  destruct (cp <? 0x80) eqn:E1; [| destruct (cp <? 0x800) eqn:E2;
    [| destruct (cp <? 0x10000) eqn:E3]];
    eexists; eexists; (split; [reflexivity |]); unfold utf8_length;
    cbn [List.length];
    repeat match goal with
           | |- context [?a <? ?b] => destruct (N.ltb_spec a b)
           end;
    rewrite ?N.ltb_lt, ?N.ltb_ge in *; try reflexivity; lia.
Qed.

Lemma utf8_inj cp cp' :
  cp < 0x110000 -> cp' < 0x110000 -> utf8 cp = utf8 cp' -> cp = cp'.
Proof.
  intros Hcp Hcp'. unfold utf8.
  destruct (cp <? 0x80) eqn:E1; [| destruct (cp <? 0x800) eqn:E2;
    [| destruct (cp <? 0x10000) eqn:E3]];
    (destruct (cp' <? 0x80) eqn:E1'; [| destruct (cp' <? 0x800) eqn:E2';
       [| destruct (cp' <? 0x10000) eqn:E3']]);
    rewrite ?N.ltb_lt, ?N.ltb_ge in *; intros [=]; lia.
Qed.

Lemma escape_app_inj cp cp' e e' :
  cp < 0x110000 -> cp' < 0x110000 ->
  escape cp ++ e = escape cp' ++ e' -> cp = cp' /\ e = e'.
Proof.
  intros Hcp Hcp' H. unfold escape in H.
  destruct (utf8_head cp Hcp) as (o & rest & Eo & Hlen).
  destruct (utf8_head cp' Hcp') as (o' & rest' & Eo' & Hlen').
  pose proof (utf8_octets cp Hcp) as Hoct.
  pose proof (utf8_octets cp' Hcp') as Hoct'.
  assert (Hfirst : o = o').
  { rewrite Eo in H, Hoct. rewrite Eo' in H, Hoct'.
    cbn [map List.concat] in H.
    rewrite <- !app_assoc in H.
    apply Forall_cons_1 in Hoct as [Ho _].
    apply Forall_cons_1 in Hoct' as [Ho' _].
    apply percent_app_inj in H as [-> _]; auto. }
  subst o'.
  apply octets_app_inj in H as [H ->]; [| assumption | assumption | congruence].
  split; [apply utf8_inj; assumption | reflexivity].
Qed.

Lemma escape_head cp :
  cp < 0x110000 -> exists t, escape cp = cu "%" :: t.
Proof.
  intros Hcp. destruct (utf8_head cp Hcp) as (o & rest & Eo & _).
  unfold escape. rewrite Eo. cbn [map List.concat percent app]. eauto.
Qed.

(** How the encoding of a non-empty string starts. *)
Lemma encodeURIComponent_cons c rest e :
  encodeURIComponent (c :: rest) = Some e ->
  (unreserved c = true /\
   exists e', encodeURIComponent rest = Some e' /\ e = c :: e') \/
  (unreserved c = false /\ is_trail c = false /\ is_lead c = false /\
   exists e', encodeURIComponent rest = Some e' /\ e = escape c ++ e') \/
  (unreserved c = false /\ is_lead c = true /\
   exists d rest' e',
     rest = d :: rest' /\ is_trail d = true /\
     encodeURIComponent rest' = Some e' /\
     e = escape (pair_code_point c d) ++ e').
Proof.
  cbn [encodeURIComponent].
  destruct (unreserved c) eqn:Eu.
  { destruct (encodeURIComponent rest) as [e'|]; [| discriminate].
    intros [= <-]. left. eauto. }
  destruct (is_trail c) eqn:Et; [discriminate |].
  destruct (is_lead c) eqn:El.
  - destruct rest as [|d rest']; [discriminate |].
    destruct (is_trail d) eqn:Etd; [| discriminate].
    destruct (encodeURIComponent rest') as [e'|] eqn:Ee; [| discriminate].
    intros [= <-]. right; right. split; [reflexivity |].
    split; [reflexivity |]. exists d, rest', e'. auto.
  - destruct (encodeURIComponent rest) as [e'|]; [| discriminate].
    intros [= <-]. right; left. repeat (split; [reflexivity |]).
    exists e'. auto.
Qed.

Lemma pair_code_point_inj c d c' d' :
  is_lead c = true -> is_trail d = true ->
  is_lead c' = true -> is_trail d' = true ->
  pair_code_point c d = pair_code_point c' d' -> c = c' /\ d = d'.
Proof.
  unfold is_lead, is_trail, pair_code_point.
  rewrite !andb_true_iff, !N.leb_le. lia.
Qed.

Ltac plain_percent :=
  match goal with
  | H : unreserved _ = true |- _ => vm_compute in H; discriminate H
  end.

(** Two strings with the same encoding are the same string. *)
Lemma encodeURIComponent_inj s1 : forall s2 e,
  Forall code_unit s1 -> Forall code_unit s2 ->
  encodeURIComponent s1 = Some e -> encodeURIComponent s2 = Some e ->
  s1 = s2.
Proof.
  remember (List.length s1) as n eqn:En. revert s1 En.
  induction n as [n IH] using lt_wf_ind.
  intros s1 En s2 e Hwf1 Hwf2 H1 H2.
  destruct s1 as [|c1 r1], s2 as [|c2 r2]; [reflexivity | | |].
  - injection H1 as <-.
    apply encodeURIComponent_cons in H2
      as [(_ & e' & _ & He) | [(_ & _ & _ & e' & _ & He)
                              | (_ & El & d & r' & e' & _ & Et & _ & He)]].
    + discriminate.
    + apply Forall_cons_1 in Hwf2 as [Hc _]. unfold code_unit in Hc.
      destruct (escape_head c2) as [t Ht]; [lia |].
      rewrite Ht in He. discriminate.
    + destruct (escape_head (pair_code_point c2 d)) as [t Ht];
        [apply pair_code_point_bound; assumption |].
      rewrite Ht in He. discriminate.
  - injection H2 as <-.
    apply encodeURIComponent_cons in H1
      as [(_ & e' & _ & He) | [(_ & _ & _ & e' & _ & He)
                              | (_ & El & d & r' & e' & _ & Et & _ & He)]].
    + discriminate.
    + apply Forall_cons_1 in Hwf1 as [Hc _]. unfold code_unit in Hc.
      destruct (escape_head c1) as [t Ht]; [lia |].
      rewrite Ht in He. discriminate.
    + destruct (escape_head (pair_code_point c1 d)) as [t Ht];
        [apply pair_code_point_bound; assumption |].
      rewrite Ht in He. discriminate.
  - apply Forall_cons_1 in Hwf1 as [Hc1 Hr1].
    apply Forall_cons_1 in Hwf2 as [Hc2 Hr2].
    unfold code_unit in Hc1, Hc2. cbn [List.length] in En.
    apply encodeURIComponent_cons in H1
      as [(Eu1 & e1 & Hr1e & He1)
         | [(Eu1 & Et1 & El1 & e1 & Hr1e & He1)
           | (Eu1 & El1 & d1 & r1' & e1 & -> & Etd1 & Hr1e & He1)]];
    apply encodeURIComponent_cons in H2
      as [(Eu2 & e2 & Hr2e & He2)
         | [(Eu2 & Et2 & El2 & e2 & Hr2e & He2)
           | (Eu2 & El2 & d2 & r2' & e2 & -> & Etd2 & Hr2e & He2)]];
    subst e.
    + injection He2 as -> ->. f_equal.
      eapply (IH (List.length r1)); [lia | reflexivity | ..]; eassumption.
    + destruct (escape_head c2) as [t Ht]; [lia |].
      rewrite Ht in He2. injection He2 as -> _. plain_percent.
    + destruct (escape_head (pair_code_point c2 d2)) as [t Ht];
        [apply pair_code_point_bound; assumption |].
      rewrite Ht in He2. injection He2 as -> _. plain_percent.
    + destruct (escape_head c1) as [t Ht]; [lia |].
      rewrite Ht in He2. injection He2 as <- _. plain_percent.
    + apply escape_app_inj in He2 as [-> ->]; [| lia ..]. f_equal.
      eapply (IH (List.length r1)); [lia | reflexivity | ..]; eassumption.
    + apply escape_app_inj in He2 as [Hcp _];
        [| lia | apply pair_code_point_bound; assumption].
      exfalso. revert Hcp El2 Etd2. unfold pair_code_point, is_lead, is_trail.
      rewrite !andb_true_iff, !N.leb_le. lia.
    + destruct (escape_head (pair_code_point c1 d1)) as [t Ht];
        [apply pair_code_point_bound; assumption |].
      rewrite Ht in He2. injection He2 as <- _. plain_percent.
    + apply escape_app_inj in He2 as [Hcp _];
        [| apply pair_code_point_bound; assumption | lia].
      exfalso. revert Hcp El1 Etd1. unfold pair_code_point, is_lead, is_trail.
      rewrite !andb_true_iff, !N.leb_le. lia.
    + apply escape_app_inj in He2 as [Hcp ->];
        [| apply pair_code_point_bound; assumption ..].
      apply pair_code_point_inj in Hcp as [-> ->]; try assumption.
      apply Forall_cons_1 in Hr1 as [_ Hr1].
      apply Forall_cons_1 in Hr2 as [_ Hr2].
      cbn [List.length] in En. do 2 f_equal.
      eapply (IH (List.length r1')); [lia | reflexivity | ..]; eassumption.
Qed.

(** Encoding goes through concatenation. *)
Lemma encodeURIComponent_app s1 : forall e1 s2,
  encodeURIComponent s1 = Some e1 ->
  encodeURIComponent (s1 ++ s2)
  = option_map (app e1) (encodeURIComponent s2).
Proof.
  remember (List.length s1) as n eqn:En. revert s1 En.
  induction n as [n IH] using lt_wf_ind. intros s1 En e1 s2 H1.
  destruct s1 as [|c r]; cbn [List.length] in En.
  - injection H1 as <-. cbn [app]. destruct (encodeURIComponent s2); reflexivity.
  - apply encodeURIComponent_cons in H1
      as [(Eu & e' & Hr & ->)
         | [(Eu & Et & El & e' & Hr & ->)
           | (Eu & El & d & r' & e' & -> & Etd & Hr & ->)]].
    + cbn [app encodeURIComponent]. rewrite Eu.
      rewrite (IH (List.length r)) with (e1 := e') by (auto; lia).
      destruct (encodeURIComponent s2); reflexivity.
    + cbn [app encodeURIComponent]. rewrite Eu, Et, El.
      rewrite (IH (List.length r)) with (e1 := e') by (auto; lia).
      destruct (encodeURIComponent s2); cbn [option_map];
        [rewrite app_assoc |]; reflexivity.
    + cbn [app encodeURIComponent List.length] in *. rewrite Eu, El, Etd.
      assert (Et : is_trail c = false).
      { revert El. unfold is_lead, is_trail.
        rewrite andb_true_iff, andb_false_iff, !N.leb_le, !N.leb_gt. lia. }
      rewrite Et.
      rewrite (IH (List.length r')) with (e1 := e') by (auto; lia).
      destruct (encodeURIComponent s2); cbn [option_map];
        [rewrite app_assoc |]; reflexivity.
Qed.

Lemma encodeURIComponent_unreserved s :
  Forall (fun c => unreserved c = true) s -> encodeURIComponent s = Some s.
Proof.
  induction 1 as [|c s Hc _ IH]; cbn [encodeURIComponent]; [reflexivity |].
  rewrite Hc, IH. reflexivity.
Qed.

End EncodingFacts.

Section EncodingProperties.
Import Regex URI Schema Formik Screen Spec.
Import Yup(api_result, Resolved, Rejected, settle, is_empty).

Lemma request_of_email values url :
  In url (validation_requests registrationSchema values) ->
  exists component,
    encodeURIComponent (getIn values Email) = Some component /\
    url = check_email_url component.
Proof.
  rewrite validation_requests_registration, requests_email_schema.
  destruct (is_empty _); [intros [] |].
  destruct (encodeURIComponent _) as [component|]; [| intros []].
  intros [<- | []]. eauto.
Qed.

(** X8. The request of the check determines the email: two forms whose
    validation sends the same request hold the same email. *)
Theorem check_request_determines_email
    (values1 values2 : FormValues) (url : jsstring) :
  Forall code_unit (getIn values1 Email) ->
  Forall code_unit (getIn values2 Email) ->
  In url (validation_requests registrationSchema values1) ->
  In url (validation_requests registrationSchema values2) ->
  getIn values1 Email = getIn values2 Email.
Proof.
  intros Hwf1 Hwf2 H1 H2.
  apply request_of_email in H1 as (e1 & He1 & ->).
  apply request_of_email in H2 as (e2 & He2 & Hurl).
  unfold check_email_url in Hurl. apply app_inv_head in Hurl. subst e2.
  exact (encodeURIComponent_inj _ _ _ Hwf1 Hwf2 He1 He2).
Qed.

Lemma check_request_determines_email_witness :
  Forall code_unit (getIn ivanov Email) /\
  In (js "/api/check-email?email=ivanov%40edu.hse.ru")
     (validation_requests registrationSchema ivanov) /\
  In (js "/api/check-email?email=ivanov%40edu.hse.ru")
     (validation_requests registrationSchema (setIn ivanov Surname [])) /\
  getIn ivanov Email = getIn (setIn ivanov Surname []) Email.
Proof.
  assert (Hwf : Forall code_unit (getIn ivanov Email)).
  { unfold code_unit. vm_compute.
    repeat (apply Forall_cons_2; [reflexivity |]). apply Forall_nil_2. }
  assert (H1 : In (js "/api/check-email?email=ivanov%40edu.hse.ru")
                  (validation_requests registrationSchema ivanov))
    by (vm_compute; left; reflexivity).
  assert (H2 : In (js "/api/check-email?email=ivanov%40edu.hse.ru")
                  (validation_requests registrationSchema
                     (setIn ivanov Surname [])))
    by (vm_compute; left; reflexivity).
  split; [exact Hwf |]. split; [exact H1 |]. split; [exact H2 |].
  exact (check_request_determines_email ivanov (setIn ivanov Surname []) _
           Hwf Hwf H1 H2).
Defined.

Lemma encode_local_part local_part :
  Forall local_char local_part ->
  encodeURIComponent local_part =
  Some (flat_map (fun c => if c =? cu "%" then js "%25"
                           else if c =? cu "+" then js "%2B" else [c])
                 local_part).
Proof.
  induction 1 as [|c l Hc _ IH]; [reflexivity |].
  cbn [encodeURIComponent flat_map]. rewrite IH.
  destruct (N.eqb_spec c (cu "%")) as [->|Hp]; [reflexivity |].
  destruct (N.eqb_spec c (cu "+")) as [->|Hq]; [reflexivity |].
  assert (Hu : unreserved c = true).
  { unfold local_char in Hc. unfold unreserved. class_arith. lia. }
  rewrite Hu. reflexivity.
Qed.

(** X9. What is sent for a corporate address: the local part with [%]
    written [%25] and [+] written [%2B], everything else as typed, then
    [%40edu.hse.ru]. *)
Theorem corporate_check_url (values : FormValues) (local_part : jsstring) :
  local_part <> [] ->
  Forall local_char local_part ->
  getIn values Email = local_part ++ js "@edu.hse.ru" ->
  validation_requests registrationSchema values =
  [js "/api/check-email?email=" ++
   flat_map (fun c => if c =? cu "%" then js "%25"
                      else if c =? cu "+" then js "%2B" else [c])
            local_part ++
   js "%40edu.hse.ru"].
Proof.
  intros Hne Hall Hmail.
  rewrite validation_requests_registration, requests_email_schema, Hmail.
  rewrite (encodeURIComponent_app _ _ _ (encode_local_part _ Hall)).
  destruct local_part; [congruence | reflexivity].
Qed.

Lemma corporate_check_url_witness :
  js "iv+an%ov" <> [] /\
  Forall local_char (js "iv+an%ov") /\
  validation_requests registrationSchema
    (setIn ivanov Email (js "iv+an%ov@edu.hse.ru"))
  = [js "/api/check-email?email=iv%2Ban%25ov%40edu.hse.ru"].
Proof.
  assert (Hne : js "iv+an%ov" <> []) by (vm_compute; discriminate).
  assert (Hall : Forall local_char (js "iv+an%ov")).
  { repeat (apply Forall_cons_2;
            [unfold local_char; vm_compute; intuition discriminate |]).
    apply Forall_nil_2. }
  split; [exact Hne |]. split; [exact Hall |].
  exact (corporate_check_url (setIn ivanov Email (js "iv+an%ov@edu.hse.ru"))
           (js "iv+an%ov") Hne Hall eq_refl).
Defined.

End EncodingProperties.

(** * Further properties of the screen *)

Section TraceFacts.
Import Schema Formik Screen Traces.

Lemma take_run_attempts id l r rest :
  take_run id l = Some (r, rest) ->
  List.length (List.filter run_submit l)
  = ((if run_submit r then 1 else 0)
     + List.length (List.filter run_submit rest))%nat.
Proof.
  revert r rest. induction l as [|r0 l IH]; intros r rest; simpl.
  - discriminate.
  - destruct (Nat.eqb (run_id r0) id).
    + intros [= <- <-]. destruct (run_submit r0); reflexivity.
    + destruct (take_run id l) as [[r' rest']|]; [| discriminate].
      intros [= <- <-]. specialize (IH r' rest' eq_refl).
      simpl. destruct (run_submit r0); simpl; lia.
Qed.

Lemma registrations_validateForm submit vals s :
  registrations (validateForm submit vals s) = registrations s.
Proof. unfold registrations. cbn [validateForm sent]. apply registrations_GET. Qed.

Lemma registrations_app_POST l vals :
  List.filter is_register (l ++ [POST (js "/api/register") vals])
  = List.filter is_register l ++ [POST (js "/api/register") vals].
Proof. rewrite List.filter_app. reflexivity. Qed.

(** One event: the registrations and the open submit attempts together
    grow by at most one, and only on a press. *)
Lemma step_budget s e :
  (List.length (registrations (step s e)) + attempts (step s e)
   <= List.length (registrations s) + attempts s
      + (if is_press e then 1 else 0))%nat.
Proof.
  unfold attempts. destruct e as [f text|f| |id answer|id result];
    cbn [step is_press].
  - rewrite registrations_validateForm.
    cbn [validateForm validating setValues run_submit List.filter].
    unfold registrations. cbn [setValues sent]. lia.
  - rewrite registrations_validateForm.
    cbn [validateForm validating run_submit List.filter]. lia.
  - destruct (loading s); [lia |].
    rewrite registrations_validateForm.
    cbn [validateForm validating run_submit List.filter List.length]. lia.
  - destruct (take_run id (validating s)) as [[r rest]|] eqn:E; [| lia].
    rewrite (take_run_attempts _ _ _ _ E).
    unfold validation_settled, registrations.
    destruct (run_submit r); cbn [andb].
    + destruct (isValid _).
      * cbn [handleSubmit setLoading sent validating].
        rewrite registrations_app_POST, length_app. cbn [List.length]. lia.
      * cbn [sent validating]. lia.
    + cbn [sent validating]. lia.
  - destruct (take_id id (registering s)); [| lia].
    unfold registrations.
    cbn [handleSubmit_settled setLoading sent validating]. lia.
Qed.

Lemma steps_budget es : forall s,
  (List.length (registrations (steps s es)) + attempts (steps s es)
   <= List.length (registrations s) + attempts s + presses es)%nat.
Proof.
  unfold steps, presses.
  induction es as [|e es IH]; intros s; cbn [fold_left List.filter].
  - cbn [List.length]. lia.
  - specialize (IH (step s e)). pose proof (step_budget s e) as Hstep.
    destruct (is_press e); cbn [List.length]; lia.
Qed.

(** [loading] is set only while a registration request is open. *)
Lemma step_loading s e :
  (loading s = true -> registering s <> []) ->
  loading (step s e) = true -> registering (step s e) <> [].
Proof.
  intros Hinv. destruct e as [f text|f| |id answer|id result]; cbn [step].
  - cbn [validateForm setValues loading registering]. exact Hinv.
  - cbn [validateForm loading registering]. exact Hinv.
  - destruct (loading s) eqn:E; [intros _; apply Hinv; reflexivity |].
    cbn [validateForm loading registering]. congruence.
  - destruct (take_run id (validating s)) as [[r rest]|]; [| exact Hinv].
    unfold validation_settled.
    destruct (run_submit r && isValid _).
    + cbn [handleSubmit setLoading registering]. discriminate.
    + cbn [loading registering]. exact Hinv.
  - destruct (take_id id (registering s)); [| exact Hinv].
    cbn [handleSubmit_settled setLoading loading]. discriminate.
Qed.

Lemma steps_loading es : forall s,
  (loading s = true -> registering s <> []) ->
  loading (steps s es) = true -> registering (steps s es) <> [].
Proof.
  unfold steps. induction es as [|e es IH]; intros s Hinv; cbn [fold_left].
  - exact Hinv.
  - apply IH. apply step_loading. exact Hinv.
Qed.

End TraceFacts.

Section ScreenProperties.
Import Schema Formik Screen Traces Spec.
Import Yup(api_result, Resolved, Rejected).

(** X10. A registration request is sent by one kind of event only: the
    settling of the validation of a submit attempt that finds no error.
    Its body is the values the form holds at that moment. *)
Theorem register_only_after_valid_submit (s : screen) (e : event) :
  registrations (step s e) = registrations s \/
  exists id answer r rest,
    e = ValidationSettled id answer /\
    take_run id (validating s) = Some (r, rest) /\
    run_submit r = true /\
    isValid (runValidationSchema registrationSchema (fun _ => answer)
               (run_values r)) = true /\
    registrations (step s e)
    = registrations s ++ [POST (js "/api/register") (values s)].
Proof.
  destruct e as [f text|f| |id answer|id result]; cbn [step].
  - left. rewrite registrations_validateForm. reflexivity.
  - left. apply registrations_validateForm.
  - left. destruct (loading s); [reflexivity |].
    apply registrations_validateForm.
  - destruct (take_run id (validating s)) as [[r rest]|] eqn:E;
      [| left; reflexivity].
    unfold validation_settled.
    destruct (run_submit r) eqn:Hsub; cbn [andb]; [| left; reflexivity].
    destruct (isValid _) eqn:Hvalid; [| left; reflexivity].
    right. exists id, answer, r, rest. repeat (split; [auto; fail |]).
    unfold registrations. cbn [handleSubmit setLoading sent values].
    apply registrations_app_POST.
  - left. destruct (take_id id (registering s)); reflexivity.
Qed.

(** X11. However the events fall, the screen never sends more
    registration requests than the submit button was pressed. *)
Theorem registrations_bounded_by_presses (es : list event) :
  (List.length (registrations (steps initial es)) <= presses es)%nat.
Proof.
  pose proof (steps_budget es initial) as H.
  change (attempts initial) with O in H.
  change (registrations initial) with (@nil request) in H.
  cbn [List.length] in H. lia.
Qed.

(** X12. [loading] is set only while a registration request is open:
    the button is never left disabled without a request that can still
    settle and enable it again. *)
Theorem loading_only_with_open_request (es : list event) :
  loading (steps initial es) = true -> registering (steps initial es) <> [].
Proof.
  apply steps_loading. discriminate.
Qed.

Lemma loading_only_with_open_request_witness :
  let es := [Change Surname (js "Ivanov"); Change Name (js "Ivan");
             Change Email (js "ivanov@edu.hse.ru");
             Change ProgramId (js "1"); Change YearAdmission (js "2024");
             Change Group (js "2"); Press;
             ValidationSettled 6 (Resolved true)] in
  loading (steps initial es) = true /\ registering (steps initial es) <> [].
Proof.
  intros es.
  assert (H : loading (steps initial es) = true) by (vm_compute; reflexivity).
  split; [exact H |].
  exact (loading_only_with_open_request es H).
Defined.

(** X13. The request carries the values of the moment the validation
    settles, not the values that were validated: a field edited after
    the press is sent as edited. *)
Theorem edit_after_press_is_submitted
    (s : screen) (f : field) (x : jsstring) (answer : api_result) :
  loading s = false ->
  isValid (runValidationSchema registrationSchema (fun _ => answer)
             (values s)) = true ->
  registrations (steps s [Press; Change f x;
                          ValidationSettled (fresh s) answer])
  = registrations s ++ [POST (js "/api/register") (setIn (values s) f x)].
Proof.
  intros Hidle Hvalid. unfold steps. cbn [fold_left]. cbn [step].
  rewrite Hidle.
  cbn [validateForm setValues validating values fresh].
  rewrite take_run_skip by (cbn [run_id]; lia).
  rewrite take_run_head.
  unfold validation_settled. cbn [run_submit run_values andb].
  rewrite Hvalid. unfold registrations.
  cbn [handleSubmit setLoading sent values].
  rewrite registrations_app_POST.
  change (List.filter is_register (sent ?t)) with (registrations t).
  rewrite registrations_validateForm.
  change (registrations (setValues ?v ?t)) with (registrations t).
  rewrite registrations_validateForm. reflexivity.
Qed.

Lemma edit_after_press_is_submitted_witness :
  let s := setValues ivanov initial in
  loading s = false /\
  isValid (runValidationSchema registrationSchema (fun _ => Resolved true)
             (values s)) = true /\
  registrations (steps s [Press; Change Email (js "a@gmail.com");
                          ValidationSettled (fresh s) (Resolved true)])
  = registrations s ++
    [POST (js "/api/register") (setIn (values s) Email (js "a@gmail.com"))].
Proof.
  intros s.
  assert (Hidle : loading s = false) by reflexivity.
  assert (Hvalid : isValid (runValidationSchema registrationSchema
                              (fun _ => Resolved true) (values s)) = true)
    by (vm_compute; reflexivity).
  split; [exact Hidle |]. split; [exact Hvalid |].
  exact (edit_after_press_is_submitted s Email (js "a@gmail.com")
           (Resolved true) Hidle Hvalid).
Defined.

(** X14. After a failed registration the form keeps its values and can
    be sent again: the next press, once its validation finds no error,
    sends a new request with the same values. *)
Theorem retry_after_failure
    (s : screen) (id : nat) (message : option string) (answer : api_result) :
  is_Some (take_id id (registering s)) ->
  isValid (runValidationSchema registrationSchema (fun _ => answer)
             (values s)) = true ->
  let s1 := step s (RegisterSettled id (Failed message)) in
  values s1 = values s /\
  registrations (steps s1 [Press; ValidationSettled (fresh s1) answer])
  = registrations s ++ [POST (js "/api/register") (values s)].
Proof.
  intros [rest Hin] Hvalid. cbn [step]. rewrite Hin.
  split; [reflexivity |].
  rewrite submit_attempt_settled by reflexivity.
  unfold validation_settled. cbn [run_submit run_values andb].
  cbn [handleSubmit_settled setLoading values] in *. rewrite Hvalid.
  unfold registrations.
  cbn [handleSubmit setLoading sent values validateForm handleSubmit_settled].
  rewrite registrations_app_POST, registrations_GET. reflexivity.
Qed.

Lemma retry_after_failure_witness :
  let s := steps (setValues ivanov initial)
             [Press; ValidationSettled 0 (Resolved true)] in
  let s1 := step s (RegisterSettled 1 (Failed None)) in
  is_Some (take_id 1 (registering s)) /\
  values s1 = values s /\
  registrations (steps s1 [Press; ValidationSettled (fresh s1) (Resolved true)])
  = registrations s ++ [POST (js "/api/register") (values s)].
Proof.
  intros s s1.
  assert (Hin : is_Some (take_id 1 (registering s)))
    by (vm_compute; eexists; reflexivity).
  assert (Hvalid : isValid (runValidationSchema registrationSchema
                              (fun _ => Resolved true) (values s)) = true)
    by (vm_compute; reflexivity).
  split; [exact Hin |].
  exact (retry_after_failure s 1%nat None (Resolved true) Hin Hvalid).
Defined.

End ScreenProperties.

(** * The pickers *)

Section PickerFacts.
Import Pickers.

Lemma js_inj s1 s2 : js s1 = js s2 -> s1 = s2.
Proof.
  unfold js. intros H.
  rewrite <- (string_of_list_ascii_of_string s1),
          <- (string_of_list_ascii_of_string s2).
  f_equal. revert H.
  generalize (list_ascii_of_string s1) (list_ascii_of_string s2).
  intros l1. induction l1 as [|a l1 IH]; intros [|b l2]; simpl;
    try discriminate; [reflexivity |].
  intros [= Hab Hl]. f_equal; [| apply IH; assumption].
  unfold cu in Hab.
  rewrite <- (ascii_N_embedding a), <- (ascii_N_embedding b), Hab.
  reflexivity.
Qed.

Lemma string_of_int_nonempty d : NilZero.string_of_int d <> EmptyString.
Proof.
  destruct d as [u|u]; simpl; [| discriminate].
  destruct u; simpl; discriminate.
Qed.

Lemma toString_nonempty n : toString n <> [].
Proof.
  unfold toString. intros H.
  apply (string_of_int_nonempty (Z.to_int n)).
  apply js_inj. exact H.
Qed.

Lemma to_int_not_nil n :
  Z.to_int n <> Decimal.Pos Decimal.Nil /\ Z.to_int n <> Decimal.Neg Decimal.Nil.
Proof.
  split; intros H; pose proof (f_equal Z.of_int H) as H0;
    rewrite DecimalZ.of_to in H0; simpl in H0; subst n;
    vm_compute in H; discriminate H.
Qed.

Lemma toString_inj n m :
  safe_integer n -> safe_integer m -> toString n = toString m -> n = m.
Proof.
  unfold toString. intros _ _ H. apply js_inj in H.
  apply (f_equal NilZero.int_of_string) in H.
  destruct (to_int_not_nil n), (to_int_not_nil m).
  rewrite !NilZero.isi in H by assumption.
  injection H as H. apply DecimalZ.to_int_inj. exact H.
Qed.

End PickerFacts.

Section PickerProperties.
Import Schema Formik Spec Pickers.
Import Yup(api_result, Resolved, Rejected).

Example toString_examples :
  toString 2024 = js "2024" /\ toString 0 = js "0" /\ toString (-5) = js "-5".
Proof. repeat split. Qed.

Lemma years_NoDup currentYear : NoDup (years currentYear).
Proof.
  unfold years. apply NoDup_fmap_2; [| apply NoDup_ListNoDup, seq_NoDup].
  intros i j Hij. lia.
Qed.

(** X15. The year picker offers the current year and the ten years
    before it, no other year, and each of them once. *)
Theorem years_offered (currentYear y : Z) :
  (In y (years currentYear) <-> (currentYear - 10 <= y <= currentYear)%Z) /\
  NoDup (years currentYear).
Proof.
  unfold years. split.
  - rewrite in_map_iff. split.
    + intros (i & <- & Hi). apply in_seq in Hi. lia.
    + intros Hy. exists (Z.to_nat (currentYear - y)).
      split; [lia | apply in_seq; lia].
  - apply years_NoDup.
Qed.

(** X16. In the programme, year and group pickers every item but the
    placeholder fills the field: after the choice the field has no
    message exactly when the chosen value is that of a real item. *)
Theorem picked_item_fills_field
    (values : FormValues) (net : jsstring -> api_result)
    (f : field) (elements : list Z) (v : jsstring) :
  f = ProgramId \/ f = YearAdmission \/ f = Group ->
  In v (item_values elements) ->
  (runValidationSchema registrationSchema net (setIn values f v)
     !! field_name f = None
   <-> exists n, In n elements /\ v = toString n).
Proof.
  intros Hf Hv.
  assert (Hreq : required_field f = true /\ f <> Email)
    by (destruct Hf as [-> | [-> | ->]]; split; (reflexivity || discriminate)).
  destruct Hreq as [Hreq Hne].
  rewrite (lookup_required net _ f Hreq Hne).
  replace (getIn (setIn values f v) f) with v by (destruct f; reflexivity).
  unfold item_values in Hv. destruct Hv as [<- | Hv].
  - split; [congruence |].
    intros (n & _ & Hn). symmetry in Hn. exfalso.
    exact (toString_nonempty n Hn).
  - apply in_map_iff in Hv as (n & <- & Hn).
    split; [eauto | intros _; apply toString_nonempty].
Qed.

Lemma picked_item_fills_field_witness :
  In (toString 2024) (item_values (years 2026)) /\
  (runValidationSchema registrationSchema (fun _ => Resolved true)
     (setIn initialValues YearAdmission (toString 2024))
     !! field_name YearAdmission = None
   <-> exists n, In n (years 2026) /\ toString 2024 = toString n).
Proof.
  assert (Hv : In (toString 2024) (item_values (years 2026)))
    by (vm_compute; auto 10).
  split; [exact Hv |].
  exact (picked_item_fills_field initialValues (fun _ => Resolved true)
           YearAdmission (years 2026) (toString 2024)
           (or_intror (or_introl eq_refl)) Hv).
Defined.

(** X17. When the elements of a picker are safe integers and pairwise
    distinct, the values of its items are pairwise distinct too: the
    value handed to [handleChange] tells which item was chosen, and no
    element is taken for the placeholder. *)
Theorem item_values_distinct (elements : list Z) :
  Forall safe_integer elements ->
  NoDup elements -> NoDup (item_values elements).
Proof.
  intros Hsafe Hnd. unfold item_values. apply NoDup_cons_2.
  - rewrite list_elem_of_In, in_map_iff. intros (n & Hn & _).
    exact (toString_nonempty n Hn).
  - apply NoDup_fmap_2_strong; [| assumption].
    rewrite Forall_forall in Hsafe.
    intros n m Hn Hm. apply toString_inj; auto.
Qed.

Lemma item_values_distinct_witness :
  Forall safe_integer (years 2026) /\
  NoDup (years 2026) /\ NoDup (item_values (years 2026)).
Proof.
  assert (Hsafe : Forall safe_integer (years 2026)).
  { unfold safe_integer, years. cbn [map seq].
    repeat (apply Forall_cons_2; [lia |]). apply Forall_nil_2. }
  assert (H : NoDup (years 2026)) by apply years_NoDup.
  split; [exact Hsafe |]. split; [exact H |].
  exact (item_values_distinct (years 2026) Hsafe H).
Defined.

(** X18. When the programmes cannot be loaded, one alert says so, the
    programme picker is left with its placeholder only, and a form whose
    programme comes from that picker never passes validation. *)
Theorem failed_load_blocks_the_form
    (values : FormValues) (net : jsstring -> api_result) :
  let st := loadPrograms LoadFailed not_loaded in
  load_alerts st = [("Ошибка", "Не удалось загрузить направления")] /\
  program_values st = [[]] /\
  (In (getIn values ProgramId) (program_values st) ->
   isSubmittable (runValidationSchema registrationSchema net values) = false).
Proof.
  cbv zeta. split; [reflexivity |]. split; [reflexivity |].
  intros [Hv | []]. unfold isSubmittable.
  destruct (isValid _) eqn:E; [| reflexivity].
  apply isValid_registration in E as (Hreq & _).
  specialize (Hreq ProgramId eq_refl). congruence.
Qed.

Lemma failed_load_blocks_the_form_witness :
  In (getIn (setIn ivanov ProgramId []) ProgramId)
     (program_values (loadPrograms LoadFailed not_loaded)) /\
  isSubmittable (runValidationSchema registrationSchema
                   (fun _ => Resolved true) (setIn ivanov ProgramId []))
  = false.
Proof.
  assert (H : In (getIn (setIn ivanov ProgramId []) ProgramId)
                 (program_values (loadPrograms LoadFailed not_loaded)))
    by (left; reflexivity).
  split; [exact H |].
  exact (proj2 (proj2 (failed_load_blocks_the_form
                         (setIn ivanov ProgramId [])
                         (fun _ => Resolved true))) H).
Defined.

End PickerProperties.

Section PatternProperties.
Import Regex Schema Spec.

Lemma count_at_local local_part :
  Forall local_char local_part ->
  count_occ N.eq_dec local_part (cu "@") = O.
Proof.
  induction 1 as [|c l Hc _ IH]; [reflexivity |].
  cbn [count_occ]. destruct (N.eq_dec c (cu "@")) as [->|_]; [| exact IH].
  exfalso. unfold local_char in Hc. class_arith. lia.
Qed.

(** X19. What the pattern never lets through: a value it accepts is made
    of ASCII characters only, holds exactly one [@] and is longer than
    its domain part. *)
Theorem accepted_email_shape (s : jsstring) :
  Regex.test corporate s = true ->
  Forall (fun c => c < 128) s /\
  count_occ N.eq_dec s (cu "@") = 1%nat /\
  (12 <= List.length s)%nat.
Proof.
  intros H. apply corporate_spec in H as (local_part & Hne & Hall & ->).
  split; [| split].
  - apply Forall_app. split.
    + eapply Forall_impl; [exact Hall |]. intros c Hc.
      unfold local_char in Hc. class_arith. lia.
    + vm_compute. repeat (apply Forall_cons_2; [reflexivity |]).
      apply Forall_nil_2.
  - rewrite count_occ_app, (count_at_local _ Hall). reflexivity.
  - rewrite length_app. destruct local_part; [congruence |].
    cbn [List.length]. change (List.length (js "@edu.hse.ru")) with 11%nat. lia.
Qed.

Lemma accepted_email_shape_witness :
  Regex.test corporate (js "ivanov@edu.hse.ru") = true /\
  Forall (fun c => c < 128) (js "ivanov@edu.hse.ru") /\
  count_occ N.eq_dec (js "ivanov@edu.hse.ru") (cu "@") = 1%nat /\
  (12 <= List.length (js "ivanov@edu.hse.ru"))%nat.
Proof.
  assert (H : Regex.test corporate (js "ivanov@edu.hse.ru") = true)
    by (vm_compute; reflexivity).
  split; [exact H |].
  exact (accepted_email_shape (js "ivanov@edu.hse.ru") H).
Defined.

End PatternProperties.
